(** * LOAD DATA LOCAL INFILE handling of the MySQL driver (infile.go)

    A shallow embedding of [infile.go]: the two registries, the request
    dispatcher [handleInFileRequest], the programmatic row buffer
    ([loadDataStart], [loadDataWrite], [loadDataWritePacket],
    [loadDataTerminate]) and the value encoder ([encodedLoadData],
    [escapedText]).

    Conventions.
    - A Go [string] and a Go [[]byte] are sequences of bytes: Rocq's [string]
      (a list of 8-bit [ascii]).  A [[]byte] that may be [nil] is an
      [option string].
    - A Go [int] or [int64] is a [Z] and a [uint64] an [N]; the properties
      hold without the 64-bit bounds.  Go's [/] and [%] truncate towards
      zero and are [Z.quot] and [Z.rem].
    - A Go map is a [gmap]; a map variable that may still be [nil] is an
      [option (gmap _ _)].
    - A run-time panic (index out of range) is the result [None] of a
      function into [option].
    - The locks around the registries are not modelled: every function here
      is one sequential run.
    - What infile.go calls in Go's standard library ([strings], [strconv],
      [time], [os], [io]) and in the rest of the driver ([writePacket],
      [readResultOK], [readPacket]) is outside the file.  The pure library
      functions are written out in the modules [GoString], [strconv] and
      [time]; files, readers and the transport are given by their results
      ([Env]), and every call on them is recorded in a trace. *)

From Stdlib Require Import ZArith String Ascii List Bool Lia Floats.
From stdpp Require Import gmap strings.
Import ListNotations.

Open Scope string_scope.
Open Scope Z_scope.

(** ** Go strings *)

Module GoString.

(** [s[n:]] *)
Fixpoint drop (n : nat) (s : string) : string :=
  match n, s with
  | O, _ => s
  | S n', String _ r => drop n' r
  | S _, EmptyString => EmptyString
  end.

(** [s[:n]] *)
Fixpoint take (n : nat) (s : string) : string :=
  match n, s with
  | O, _ => EmptyString
  | S n', String c r => String c (take n' r)
  | S _, EmptyString => EmptyString
  end.

(** [s[i]] for a Go [int] index: out of range is a panic. *)
Definition index (s : string) (i : Z) : option ascii :=
  if i <? 0 then None else String.get (Z.to_nat i) s.

(** [strings.Index(s, substr)]: the position of the first occurrence of
    [substr] in [s], or -1.  [i] is the position of [s] in the whole. *)
Fixpoint IndexFrom (i : Z) (s substr : string) : Z :=
  if String.prefix substr s then i
  else match s with
       | EmptyString => -1
       | String _ r => IndexFrom (i + 1) r substr
       end.

Definition Index (s substr : string) : Z := IndexFrom 0 s substr.

(** [strings.Trim(s, cutset)] for a cutset of one byte, as the library
    does it: all leading and all trailing occurrences go. *)
Fixpoint trimLeftByte (s : string) (c : ascii) : string :=
  match s with
  | EmptyString => EmptyString
  | String a r => if Ascii.eqb a c then trimLeftByte r c else s
  end.

Fixpoint trimRightByte (s : string) (c : ascii) : string :=
  match s with
  | EmptyString => EmptyString
  | String a r =>
      match trimRightByte r c with
      | EmptyString => if Ascii.eqb a c then EmptyString else String a EmptyString
      | r' => String a r'
      end
  end.

Definition TrimByte (s : string) (c : ascii) : string :=
  trimLeftByte (trimRightByte s c) c.

End GoString.

(** The double quote, the cutset of every [strings.Trim] in the file. *)
Definition quote : ascii := ascii_of_nat 34.

Definition backslash : ascii := ascii_of_nat 92.
Definition LF : ascii := ascii_of_nat 10.
Definition CR : ascii := ascii_of_nat 13.
Definition TAB : ascii := ascii_of_nat 9.

(** ** escapedText (infile.go, 330-364) *)

(** The test of the first loop: [c == '\\' || c == '\n' || c == '\r' || c == '\t']. *)
Definition escapeNeeded (c : ascii) : bool :=
  Ascii.eqb c backslash || Ascii.eqb c LF || Ascii.eqb c CR || Ascii.eqb c TAB.

(** First loop: the index of the first byte that needs an escape
    ([startPos], with [escapeNeeded] set), or [None] when the loop ends
    without a [break].  [i] is the loop counter. *)
Fixpoint scanEscape (i : nat) (text : string) : option nat :=
  match text with
  | EmptyString => None
  | String c rest => if escapeNeeded c then Some i else scanEscape (S i) rest
  end.

(** The [switch] of the second loop: what one byte appends to [result]. *)
Definition appendByte (result : string) (c : ascii) : string :=
  if Ascii.eqb c backslash then result ++ String backslash (String backslash EmptyString)
  else if Ascii.eqb c LF then result ++ String backslash "n"
  else if Ascii.eqb c CR then result ++ String backslash "r"
  else if Ascii.eqb c TAB then result ++ String backslash "t"
  else result ++ String c EmptyString.

(** Second loop, over [text[startPos:]], with [result] as accumulator. *)
Fixpoint appendEscaped (result : string) (text : string) : string :=
  match text with
  | EmptyString => result
  | String c rest => appendEscaped (appendByte result c) rest
  end.

Definition escapedText (text : string) : string :=
  match scanEscape 0 text with
  | None => text
  | Some startPos =>
      appendEscaped (GoString.take startPos text) (GoString.drop startPos text)
  end.

(** The specification's [escapeRowText], written from its words: every byte
    is replaced on its own, the four delimiter bytes by their two-character
    escapes and every other byte by itself. *)
Definition escapeOf (c : ascii) : string :=
  if Ascii.eqb c backslash then String backslash (String backslash EmptyString)
  else if Ascii.eqb c LF then String backslash "n"
  else if Ascii.eqb c CR then String backslash "r"
  else if Ascii.eqb c TAB then String backslash "t"
  else String c EmptyString.

Fixpoint escapeRowText (text : string) : string :=
  match text with
  | EmptyString => EmptyString
  | String c rest => escapeOf c ++ escapeRowText rest
  end.

(** No byte of the string is one of the four. *)
Fixpoint plainText (text : string) : bool :=
  match text with
  | EmptyString => true
  | String c rest => negb (escapeNeeded c) && plainText rest
  end.

(** ** strconv *)

Module strconv.

(** The ASCII digit of a value below ten. *)
Definition digit (d : Z) : ascii := ascii_of_nat (48 + Z.to_nat d).

(** The base-10 loop of [strconv]'s [formatBits]: digits are produced from
    the least significant one and written in front of [acc].  [fuel]
    bounds the number of digits. *)
Fixpoint formatBits (fuel : nat) (u : Z) (acc : string) : string :=
  if u <? 10 then String (digit u) acc
  else match fuel with
       | O => acc
       | S fuel' => formatBits fuel' (u / 10) (String (digit (u mod 10)) acc)
       end.

(** [strconv.FormatUint(u, 10)]; a number has no more decimal digits than
    binary ones. *)
Definition FormatUint (u : Z) : string :=
  formatBits (Z.to_nat (Z.log2 u) + 1) u EmptyString.

(** [strconv.FormatInt(i, 10)] *)
Definition FormatInt (i : Z) : string :=
  if i <? 0 then String "-" (FormatUint (- i)) else FormatUint i.

(** Reading decimal text back. *)
Definition digitVal (c : ascii) : Z := Z.of_nat (nat_of_ascii c) - 48.

Definition isDigit (c : ascii) : bool :=
  (48 <=? Z.of_nat (nat_of_ascii c)) && (Z.of_nat (nat_of_ascii c) <=? 57).

Fixpoint allDigits (s : string) : bool :=
  match s with
  | EmptyString => true
  | String c r => isDigit c && allDigits r
  end.

Fixpoint decValue (s : string) : Z :=
  match s with
  | EmptyString => 0
  | String c r => digitVal c * 10 ^ Z.of_nat (String.length r) + decValue r
  end.

(** Canonical decimal text of a natural number: digits only, at least
    one, and no leading zero except for the number zero itself. *)
Definition canonicalUint (s : string) : bool :=
  match s with
  | EmptyString => false
  | String c EmptyString => isDigit c
  | String c r => isDigit c && negb (Ascii.eqb c "0") && allDigits r
  end.

(** Canonical decimal text of an integer: a minus sign only in front of a
    canonical positive number. *)
Definition canonicalInt (s : string) : bool :=
  match s with
  | String "-" r => canonicalUint r && negb (String.eqb r "0")
  | _ => canonicalUint s
  end.

Definition intValue (s : string) : Z :=
  match s with
  | String "-" r => - decValue r
  | _ => decValue s
  end.

End strconv.

(** ** The two-digit lookup tables *)

(** Modelled from the spec: the constants [digits01] and [digits10] are
    declared outside infile.go.  The specification renders month, day, hour,
    minute, second, the two halves of the year and the three pairs of the
    microseconds as zero-padded two-digit fields through them: entry [i] of
    [digits10] is the tens digit of [i] and entry [i] of [digits01] its units
    digit, for [i] from 0 to 99. *)
Definition digits01 : string :=
  "0123456789012345678901234567890123456789012345678901234567890123456789012345678901234567890123456789".

Definition digits10 : string :=
  "0000000000111111111122222222223333333333444444444455555555556666666666777777777788888888889999999999".

(** The pair [digits10[i], digits01[i]] of the byte literals; an index
    outside the table panics. *)
Definition twoDigits (i : Z) : option string :=
  d10 ← GoString.index digits10 i;
  d01 ← GoString.index digits01 i;
  Some (String d10 (String d01 EmptyString)).

(** A number written with exactly [width] decimal digits, zeros in front. *)
Fixpoint zeroPad (width : nat) (n : Z) : string :=
  match width with
  | O => EmptyString
  | S w => zeroPad w (n / 10) ++ String (strconv.digit (n mod 10)) EmptyString
  end.

(** ** time.Time *)

Module time.

(** A location gives the offset east of UTC, in seconds, in force at an
    instant (given in seconds since January 1 of year 1, 00:00:00 UTC). *)
Record Location := { offsetAt : Z -> Z }.

Definition UTC : Location := {| offsetAt := fun _ => 0 |}.

Definition FixedZone (offset : Z) : Location := {| offsetAt := fun _ => offset |}.

(** An instant, in nanoseconds since January 1 of year 1, 00:00:00 UTC,
    and the location it is presented in.  The zero value is instant 0. *)
Record Time := { instant : Z; location : Location }.

Definition Nanosecond : Z := 1.

Definition IsZero (t : Time) : bool := instant t =? 0.

Definition In (t : Time) (l : Location) : Time :=
  {| instant := instant t; location := l |}.

Definition Add (t : Time) (d : Z) : Time :=
  {| instant := instant t + d; location := location t |}.

(** Seconds since year 1 on the clock of the time's location. *)
Definition abs (t : Time) : Z :=
  let sec := instant t / 1000000000 in
  sec + offsetAt (location t) sec.

Definition isLeap (year : Z) : bool :=
  (year mod 4 =? 0) && (negb (year mod 100 =? 0) || (year mod 400 =? 0)).

(** The year and the day within it (from 0) of a day number counted from
    January 1 of year 1: whole cycles of 400, 100, 4 and 1 years are cut
    off in turn; the last cycle of each kind is one day longer. *)
Definition yearDay (d : Z) : Z * Z :=
  let n400 := d / 146097 in
  let d := d - 146097 * n400 in
  let n100 := d / 36524 in
  let n100 := n100 - n100 / 4 in
  let d := d - 36524 * n100 in
  let n4 := d / 1461 in
  let d := d - 1461 * n4 in
  let n1 := d / 365 in
  let n1 := n1 - n1 / 4 in
  let d := d - 365 * n1 in
  (400 * n400 + 100 * n100 + 4 * n4 + n1 + 1, d).

(** Days before the start of each month of a common year. *)
Definition daysBefore : list Z :=
  [0; 31; 59; 90; 120; 151; 181; 212; 243; 273; 304; 334; 365].

(** Month (1 to 12) and day of the month of a day of a common year: the
    month is estimated as if every month had 31 days, which is too low by
    at most one. *)
Definition monthDayCommon (day : Z) : Z * Z :=
  let month := day / 31 in
  let endd := nth (Z.to_nat (month + 1)) daysBefore 0 in
  if day >=? endd then (month + 2, day - endd + 1)
  else (month + 1, day - nth (Z.to_nat month) daysBefore 0 + 1).

Definition monthDay (leap : bool) (yday : Z) : Z * Z :=
  if leap && (yday >? 31 + 29 - 1) then monthDayCommon (yday - 1)
  else if leap && (yday =? 31 + 29 - 1) then (2, 29)
  else monthDayCommon yday.

Definition date (t : Time) : Z * Z * Z :=
  let '(year, yday) := yearDay (abs t / 86400) in
  let '(month, day) := monthDay (isLeap year) yday in
  (year, month, day).

Definition Year (t : Time) : Z := fst (fst (date t)).
Definition Month (t : Time) : Z := snd (fst (date t)).
Definition Day (t : Time) : Z := snd (date t).
Definition Hour (t : Time) : Z := abs t mod 86400 / 3600.
Definition Minute (t : Time) : Z := abs t mod 3600 / 60.
Definition Second (t : Time) : Z := abs t mod 60.
Definition Nanoseconds (t : Time) : Z := instant t mod 1000000000.

(** [time.Date(year, month, day, hour, min, sec, nsec, time.UTC)] for
    fields in their normal ranges. *)
Definition DateUTC (year month day hour min sec nsec : Z) : Time :=
  let y := year - 1 in
  let d := 365 * y + y / 4 - y / 100 + y / 400 in
  let d := d + nth (Z.to_nat (month - 1)) daysBefore 0 in
  let d := if isLeap year && (3 <=? month) then d + 1 else d in
  let d := d + day - 1 in
  {| instant := (d * 86400 + hour * 3600 + min * 60 + sec) * 1000000000 + nsec;
     location := UTC |}.

End time.

(** ** encodedLoadData (infile.go, 256-328) *)

(** The dynamic types the type switch tells apart.  [VBytes None] is the
    nil slice, [VBytes (Some EmptyString)] an empty one that is not nil;
    [VNil] is the nil interface; [VOther] stands for a value of any other
    dynamic type. *)
Inductive Value : Type :=
| VInt64 (v : Z)
| VUint64 (v : N)
| VFloat64 (v : float)
| VBool (v : bool)
| VTime (v : time.Time)
| VBytes (v : option string)
| VString (v : string)
| VNil
| VOther.

(** The [else] branch of the [time.Time] case, lines 274-311. *)
Definition encodedTime (Loc : time.Location) (v : time.Time) : option string :=
  let v := time.In v Loc in
  let v := time.Add v (time.Nanosecond * 500) in
  let year := time.Year v in
  let year100 := Z.quot year 100 in
  let year1 := Z.rem year 100 in
  let month := time.Month v in
  let day := time.Day v in
  let hour := time.Hour v in
  let minute := time.Minute v in
  let second := time.Second v in
  let micro := Z.quot (time.Nanoseconds v) 1000 in
  y100 ← twoDigits year100;
  y1 ← twoDigits year1;
  mo ← twoDigits month;
  d ← twoDigits day;
  h ← twoDigits hour;
  mi ← twoDigits minute;
  s ← twoDigits second;
  let buf := y100 ++ y1 ++ "-" ++ mo ++ "-" ++ d ++ " " ++ h ++ ":" ++ mi ++ ":" ++ s in
  if negb (micro =? 0) then
    let micro10000 := Z.quot micro 10000 in
    let micro100 := Z.rem (Z.quot micro 100) 100 in
    let micro1 := Z.rem micro 100 in
    u1 ← twoDigits micro10000;
    u2 ← twoDigits micro100;
    u3 ← twoDigits micro1;
    Some (buf ++ "." ++ u1 ++ u2 ++ u3)
  else Some buf.

Section Encoder.

(** [strconv.FormatFloat(f, fmt, prec, bitSize)], taken from the standard
    library as it is: with format ['g'], precision -1 and bit size 64 it
    yields the shortest decimal text, in the general format, that reads
    back as the same 64-bit value. *)
Variable FormatFloat : float -> ascii -> Z -> Z -> string.

(** The result is [None] when the call panics.  The [default] branch also
    prints "unsupported type" on the error log before it returns the empty
    string. *)
Definition encodedLoadData (Loc : time.Location) (x : Value) : option string :=
  match x with
  | VInt64 v => Some (strconv.FormatInt v)
  | VUint64 v => Some (strconv.FormatUint (Z.of_N v))
  | VFloat64 v => Some (FormatFloat v "g" (-1) 64)
  | VBool v => if v then Some "1" else Some "0"
  | VTime v => if time.IsZero v then Some "0000-00-00" else encodedTime Loc v
  | VBytes v =>
      match v with
      | None => Some (String backslash "N")
      | Some b => Some (escapedText b)
      end
  | VString v => Some (escapedText v)
  | VNil => Some (String backslash "N")
  | VOther => Some EmptyString
  end.

End Encoder.

(** The rendering the specification asks of a timestamp that is not the
    zero value, written from its words: the time is converted to the
    configured timezone and moved on by 500 nanoseconds ([adjusted]); then
    come a four-digit year, two-digit month, day, hour, minute and second,
    and the six-digit microseconds after a point when they are not zero. *)
Definition adjusted (Loc : time.Location) (t : time.Time) : time.Time :=
  time.Add (time.In t Loc) 500.

Definition renderedTime (Loc : time.Location) (t : time.Time) : string :=
  let v := adjusted Loc t in
  let micro := time.Nanoseconds v / 1000 in
  zeroPad 4 (time.Year v) ++ "-" ++ zeroPad 2 (time.Month v) ++ "-" ++
  zeroPad 2 (time.Day v) ++ " " ++ zeroPad 2 (time.Hour v) ++ ":" ++
  zeroPad 2 (time.Minute v) ++ ":" ++ zeroPad 2 (time.Second v) ++
  (if micro =? 0 then EmptyString else "." ++ zeroPad 6 micro).

(** ** Errors, readers and files *)

(** The error values of a request, told apart by where they come from.  The
    first three are built by [fmt.Errorf] in [handleInFileRequest]; [EOF] is
    [io.EOF]; the others are whatever the named collaborator returned, [e]
    standing for its content. *)
Inductive error : Type :=
| ErrLocalFileNotRegistered (name : string)
| ErrReaderIsNil (name : string)
| ErrReaderNotRegistered (name : string)
| ErrOpen (e : nat)
| ErrStat (e : nat)
| ErrRead (e : nat)
| EOF
| ErrWritePacket (e : nat)
| ErrResult (e : nat)
| ErrReadPacket (e : nat)
| ErrClose (e : nat).

(** One call of [Read]: the bytes it stored, and its error.  A reader's
    error is [io.EOF] or a failure of its own. *)
Inductive readError : Type := ReadEOF | ReadFailure (e : nat).

Definition errorOfRead (r : readError) : error :=
  match r with
  | ReadEOF => EOF
  | ReadFailure e => ErrRead e
  end.

Record ReadResult : Type := { readBytes : string; readErr : option readError }.

(** What a reader answers to the successive calls of [Read] on a buffer of
    the given capacity.  The read loop runs until a [Read] returns an error,
    and it ends exactly on the readers that return one after finitely many
    calls; a reader whose list runs out reports [io.EOF] from then on. *)
Definition reads : Type := Z -> list ReadResult.

(** An [io.Reader] as a handler returns it: [closer] is [None] when the
    value is no [io.Closer], and otherwise the result of its [Close]. *)
Record Reader : Type := { readerReads : reads; closer : option (option nat) }.

(** A handler is called without arguments and returns a reader or nil. *)
Definition handler : Type := unit -> option Reader.

(** An opened [*os.File]: the result of [Stat] (an error or the size), of
    its reads and of [Close]. *)
Record File : Type := {
  fileStat : nat + Z;
  fileReads : reads;
  fileClose : option nat
}.

(** ** The registries (infile.go, 22-90) *)

Record Registers : Type := {
  fileRegister : option (gmap string bool);
  readerRegister : option (gmap string handler)
}.

(** Both maps are nil until the first registration. *)
Definition noRegisters : Registers :=
  {| fileRegister := None; readerRegister := None |}.

Definition RegisterLocalFile (filePath : string) (g : Registers) : Registers :=
  (* lazy map init *)
  let m := match fileRegister g with
           | None => ∅
           | Some m => m
           end in
  {| fileRegister := Some (<[GoString.TrimByte filePath quote := true]> m);
     readerRegister := readerRegister g |}.

(** [delete] on a nil map does nothing. *)
Definition DeregisterLocalFile (filePath : string) (g : Registers) : Registers :=
  {| fileRegister := delete (GoString.TrimByte filePath quote) <$> fileRegister g;
     readerRegister := readerRegister g |}.

Definition RegisterReaderHandler (name : string) (h : handler) (g : Registers) : Registers :=
  (* lazy map init *)
  let m := match readerRegister g with
           | None => ∅
           | Some m => m
           end in
  {| fileRegister := fileRegister g;
     readerRegister := Some (<[name := h]> m) |}.

Definition DeregisterReaderHandler (name : string) (g : Registers) : Registers :=
  {| fileRegister := fileRegister g;
     readerRegister := delete name <$> readerRegister g |}.

(** [handler, inMap := readerRegister[name]] (line 116); a nil map has no
    entry. *)
Definition lookupReader (g : Registers) (name : string) : option handler :=
  m ← readerRegister g; m !! name.

(** [fr := fileRegister[name]] (line 134): the zero value [false] for a
    missing entry. *)
Definition lookupFile (g : Registers) (name : string) : bool :=
  default false (m ← fileRegister g; m !! name).

(** The authorization test of a file request (lines 132-136): the name is
    trimmed of its quotes first. *)
Definition isFileAllowed (g : Registers) (allowAllFiles : bool) (name : string) : bool :=
  allowAllFiles || lookupFile g (GoString.TrimByte name quote).

(** ** The connection and its collaborators *)

Record Config : Type := { AllowAllFiles : bool; Loc : time.Location }.

(** The fields of [mysqlConn] that infile.go uses; [loadData] is the
    content of the [bytes.Buffer]. *)
Record mysqlConn : Type := {
  cfg : Config;
  maxWriteSize : Z;
  inLoadData : bool;
  maxLoadDataSize : Z;
  loadData : string
}.

(** What is outside the connection during one run: the registries, the
    file system, and the results of the transport's calls.  The [n]-th call
    of [writePacket] of the run (from 0) fails with [e] when
    [writePacketResult n = Some e]. *)
Record Env : Type := {
  registers : Registers;
  osOpen : string -> nat + File;
  writePacketResult : nat -> option nat;
  readResultOKResult : option nat;
  readPacketResult : option nat
}.

(** What a run does to the outside, in order.  A [writePacket] is recorded
    with the slice it was given and with what it returned. *)
Inductive event : Type :=
| EvHandler (name : string)
| EvOpen (name : string)
| EvStat
| EvRead (n : nat)
| EvClose
| EvWritePacket (data : string) (result : option error)
| EvReadResultOK
| EvReadPacket.

(** The traffic on the connection, as opposed to the calls on the source. *)
Definition isProtocol (e : event) : bool :=
  match e with
  | EvWritePacket _ _ | EvReadResultOK | EvReadPacket => true
  | _ => false
  end.

Definition protocol (tr : list event) : list event := filter (λ e, isProtocol e = true) tr.

Definition isOpen (e : event) : bool :=
  match e with
  | EvOpen _ => true
  | _ => false
  end.

(** The state a run threads: the connection, the events so far and the
    number of [writePacket] calls so far. *)
Record State : Type := { conn : mysqlConn; trace : list event; writes : nat }.

Definition M (A : Type) : Type := State -> A * State.

#[global] Instance M_ret : MRet M := λ A x s, (x, s).
#[global] Instance M_bind : MBind M := λ A B f m s, let '(x, s') := m s in f x s'.

Definition getConn : M mysqlConn := λ s, (conn s, s).

Definition setConn (mc : mysqlConn) : M unit :=
  λ s, (tt, {| conn := mc; trace := trace s; writes := writes s |}).

Definition emit (e : event) : M unit :=
  λ s, (tt, {| conn := conn s; trace := trace s ++ [e]; writes := writes s |}).

(** The reserved header: four bytes of value zero. *)
Definition zero : ascii := ascii_of_nat 0.
Definition header : string := String zero (String zero (String zero (String zero EmptyString))).

Definition writePacket (env : Env) (data : string) : M (option error) :=
  λ s, let r := ErrWritePacket <$> writePacketResult env (writes s) in
       (r, {| conn := conn s;
              trace := trace s ++ [EvWritePacket data r];
              writes := S (writes s) |}).

Definition readResultOK (env : Env) : M (option error) :=
  emit EvReadResultOK;; mret (ErrResult <$> readResultOKResult env).

(** The result of [readPacket] is a packet and an error; line 187 and line
    252 drop both. *)
Definition readPacket (env : Env) : M (option error) :=
  emit EvReadPacket;; mret (ErrReadPacket <$> readPacketResult env).

(** ** The row buffer (infile.go, 191-254) *)

Definition loadDataStart : M (option error) :=
  mc ← getConn;
  let size := 16 * 1024 in
  let size := if Z.quot (maxWriteSize mc) 2 <? size then Z.quot (maxWriteSize mc) 2 else size in
  setConn {| cfg := cfg mc;
             maxWriteSize := maxWriteSize mc;
             inLoadData := true;
             maxLoadDataSize := size;
             loadData := loadData mc ++ header |};;
  mret None.

(** [mc.loadData.Reset()] followed by [mc.loadData.Write(b)]. *)
Definition setLoadData (b : string) : M unit :=
  mc ← getConn;
  setConn {| cfg := cfg mc;
             maxWriteSize := maxWriteSize mc;
             inLoadData := inLoadData mc;
             maxLoadDataSize := maxLoadDataSize mc;
             loadData := b |}.

Definition setInLoadData (b : bool) : M unit :=
  mc ← getConn;
  setConn {| cfg := cfg mc;
             maxWriteSize := maxWriteSize mc;
             inLoadData := b;
             maxLoadDataSize := maxLoadDataSize mc;
             loadData := loadData mc |}.

Definition loadDataWritePacket (env : Env) : M (option error) :=
  mc ← getConn;
  ioErr ← writePacket env (loadData mc);
  match ioErr with
  | Some e => mret (Some e)
  | None => setLoadData header;; mret None
  end.

(** The body of [loadDataTerminate]; the named result [err] is still nil
    at line 247. *)
Definition loadDataTerminateBody (env : Env) : M (option error) :=
  let err : option error := None in
  ioErr ← loadDataWritePacket env;
  match ioErr with
  | Some e => mret (Some e)
  | None =>
      setLoadData EmptyString;;
      (* send empty packet (termination) *)
      ioErr ← writePacket env header;
      match ioErr with
      | Some e => mret (Some e)
      | None =>
          (* read OK packet *)
          match err with
          | None => readResultOK env
          | Some e => readPacket env;; mret (Some e)
          end
      end
  end.

(** The deferred function runs on every return. *)
Definition loadDataTerminate (env : Env) : M (option error) :=
  r ← loadDataTerminateBody env;
  setInLoadData false;;
  mret r.

(** The columns of one row, as the loop of [loadDataWrite] writes them: a
    tab before every column but the first.  [None] when an encoding
    panics. *)
Fixpoint encodedColumns (FormatFloat : float -> ascii -> Z -> Z -> string)
    (L : time.Location) (n : nat) (args : list Value) : option string :=
  match args with
  | [] => Some EmptyString
  | column :: rest =>
      s ← encodedLoadData FormatFloat L column;
      r ← encodedColumns FormatFloat L (S n) rest;
      Some ((if (0 <? n)%nat then String TAB EmptyString else EmptyString) ++ s ++ r)
  end.

Definition loadDataWrite (FormatFloat : float -> ascii -> Z -> Z -> string)
    (env : Env) (args : list Value) : State -> option (option error * State) :=
  λ s,
    match args with
    | [] => Some (loadDataTerminate env s)
    | _ =>
        row ← encodedColumns FormatFloat (Loc (cfg (conn s))) 0 args;
        let '(_, s) := setLoadData (loadData (conn s) ++ row ++ String LF EmptyString) s in
        if Z.of_nat (String.length (loadData (conn s))) >? maxLoadDataSize (conn s)
        then Some (loadDataWritePacket env s)
        else Some (None, s)
    end.

(** ** handleInFileRequest (infile.go, 99-189) *)

(** What lines 111-154 leave behind: the reader with [err] nil, or [err]
    with no reader ([rdr] is set exactly on the paths that leave [err]
    nil); the packet size; and the result of the [Close] that was deferred,
    if one was. *)
Record Source : Type := {
  rdr : reads + error;
  packetSize : Z;
  deferred : option (option nat)
}.

(** Lines 112-130, [name] being [name[idx+8:]] already. *)
Definition resolveReader (env : Env) (name : string) (packetSize : Z) : M Source :=
  match lookupReader (registers env) name with
  | Some h =>
      emit (EvHandler name);;
      match h tt with
      | Some r =>
          mret {| rdr := inl (readerReads r); packetSize := packetSize; deferred := closer r |}
      | None =>
          mret {| rdr := inr (ErrReaderIsNil name); packetSize := packetSize; deferred := None |}
      end
  | None =>
      mret {| rdr := inr (ErrReaderNotRegistered name); packetSize := packetSize; deferred := None |}
  end.

(** Lines 132-153. *)
Definition resolveFile (env : Env) (allowAllFiles : bool) (name : string) (packetSize : Z)
    : M Source :=
  let name := GoString.TrimByte name quote in
  let fr := lookupFile (registers env) name in
  if allowAllFiles || fr then
    emit (EvOpen name);;
    match osOpen env name with
    | inr file =>
        emit EvStat;;
        match fileStat file with
        | inr size =>
            let fileSize := size in
            mret {| rdr := inl (fileReads file);
                    packetSize := if fileSize <? packetSize then fileSize else packetSize;
                    deferred := Some (fileClose file) |}
        | inl e =>
            mret {| rdr := inr (ErrStat e); packetSize := packetSize;
                    deferred := Some (fileClose file) |}
        end
    | inl e =>
        mret {| rdr := inr (ErrOpen e); packetSize := packetSize; deferred := None |}
    end
  else
    mret {| rdr := inr (ErrLocalFileNotRegistered name); packetSize := packetSize;
            deferred := None |}.

(** How the read loop is left: by [return ioErr], or at its end with the
    last [err]. *)
Inductive loopExit : Type :=
| Returned (ioErr : error)
| Ended (err : error).

(** The loop of lines 161-168 over the answers of the reader.  The slice
    [data[:4+n]] is the reserved header followed by the [n] bytes read; the
    code never writes the header bytes, which are the transport's to fill
    in, and they are shown as zeros. *)
Fixpoint readLoop (env : Env) (answers : list ReadResult) : M loopExit :=
  match answers with
  | [] => emit (EvRead 0);; mret (Ended EOF)
  | a :: rest =>
      let n := String.length (readBytes a) in
      emit (EvRead n);;
      ioErr ← (if (0 <? n)%nat then writePacket env (header ++ readBytes a) else mret None);
      match ioErr with
      | Some e => mret (Returned e)
      | None =>
          match readErr a with
          | None => readLoop env rest
          | Some e => mret (Ended (errorOfRead e))
          end
      end
  end.

(** Lines 156-172: the result is [inl ioErr] for a [return ioErr], and
    otherwise [inr err] with the value of [err] at line 173. *)
Definition sendContent (env : Env) (src : Source) : M (error + option error) :=
  match rdr src with
  | inr err => mret (inr (Some err))
  | inl r =>
      if 0 <? packetSize src then
        x ← readLoop env (r (packetSize src));
        match x with
        | Returned ioErr => mret (inl ioErr)
        | Ended EOF => mret (inr None)
        | Ended err => mret (inr (Some err))
        end
      else mret (inr None)
  end.

(** Lines 174-188.  [data] of line 175 is the variable declared at line
    101, which nothing assigns to (line 159 declares another one), so the
    termination packet is always a fresh slice of four zero bytes. *)
Definition terminate (env : Env) (err : option error) : M (option error) :=
  (* send empty packet (termination) *)
  ioErr ← writePacket env header;
  match ioErr with
  | Some e => mret (Some e)
  | None =>
      (* read OK packet *)
      match err with
      | None => readResultOK env
      | Some e => readPacket env;; mret (Some e)
      end
  end.

(** [deferredClose]: the deferred [Close] runs after the result is set and
    replaces it only when it is nil. *)
Definition deferredClose (d : option (option nat)) (err : option error) : M (option error) :=
  match d with
  | None => mret err
  | Some closeErr =>
      emit EvClose;;
      match err with
      | None => mret (ErrClose <$> closeErr)
      | Some e => mret (Some e)
      end
  end.

(** Lines 156-188 with the deferred [Close] after them: what follows the
    resolution of the source. *)
Definition finishRequest (env : Env) (src : Source) : M (option error) :=
  x ← sendContent env src;
  r ← match x with
      | inl ioErr => mret (Some ioErr)
      | inr err => terminate env err
      end;
  deferredClose (deferred src) r.

(** The test of line 111: the prefix at position 0, or right after a
    slash. *)
Definition readerPrefixed (name : string) : bool :=
  let idx := GoString.Index name "Reader::" in
  (idx =? 0) ||
  ((0 <? idx) && bool_decide (GoString.index name (idx - 1) = Some "/"%char)).

Definition handleInFileRequest (env : Env) (name : string) : M (option error) :=
  mc ← getConn;
  let packetSize := 16 * 1024 in
  let packetSize := if maxWriteSize mc <? packetSize then maxWriteSize mc else packetSize in
  if String.eqb name "Data::Data" then loadDataStart
  else
    src ← (if readerPrefixed name
           then
             let idx := GoString.Index name "Reader::" in
             resolveReader env (GoString.drop (Z.to_nat (idx + 8)) name) packetSize
           else resolveFile env (AllowAllFiles (cfg mc)) name packetSize);
    finishRequest env src.

(** A run from a connection with nothing recorded yet. *)
Definition run {A : Type} (m : M A) (mc : mysqlConn) : A * State :=
  m {| conn := mc; trace := []; writes := O |}.

(** ** Vocabulary of the properties *)

(** What [loadDataTerminate] puts on the wire, given the results [w0] and
    [w1] of the next two calls of [writePacket]: the buffer as it is, then
    the empty packet, then the completion read; a failed write ends it. *)
Definition terminateTraffic (buffer : string) (w0 w1 : option nat) : list event :=
  EvWritePacket buffer (ErrWritePacket <$> w0) ::
  match w0 with
  | Some _ => []
  | None =>
      EvWritePacket header (ErrWritePacket <$> w1) ::
      match w1 with
      | Some _ => []
      | None => [EvReadResultOK]
      end
  end.

(** The five kinds of failure that arise on the client before anything is
    wrong with the transport: authorization, reader resolution, nil factory
    result, resource open (or stat), and stream read. *)
Definition localError (e : error) : bool :=
  match e with
  | ErrLocalFileNotRegistered _ | ErrReaderIsNil _ | ErrReaderNotRegistered _
  | ErrOpen _ | ErrStat _ | ErrRead _ => true
  | _ => false
  end.

(** A data packet that went out: a successful write of more than the
    header. *)
Definition dataWrite (e : event) : Prop :=
  exists data, e = EvWritePacket data None /\ data <> header.

(** The termination packet: the four header bytes and nothing else. *)
Definition isTermination (e : event) : bool :=
  match e with
  | EvWritePacket data _ => String.eqb data header
  | _ => false
  end.

(** Resolving the source is no protocol traffic, and the error it may
    leave is one of the local kinds. *)
Definition resolved (s : State) (r : Source * State) : Prop :=
  conn (snd r) = conn s
  /\ (exists evs, trace (snd r) = (trace s ++ evs)%list /\ protocol evs = [])
  /\ match rdr (fst r) with
     | inr err => localError err = true
     | inl _ => True
     end.

(** The protocol traffic of a request and its result, in the four ways a
    request for a reader or a file can go. *)
Inductive requestShape (r : option error) (p : list event) : Prop :=
| DataWriteFailed (pre : list event) (data : string) (e : nat) :
    Forall dataWrite pre -> data <> header ->
    p = (pre ++ [EvWritePacket data (Some (ErrWritePacket e))])%list ->
    r = Some (ErrWritePacket e) ->
    requestShape r p
| TerminationFailed (pre : list event) (e : nat) :
    Forall dataWrite pre ->
    p = (pre ++ [EvWritePacket header (Some (ErrWritePacket e))])%list ->
    r = Some (ErrWritePacket e) ->
    requestShape r p
| LocalFailure (pre : list event) (err : error) :
    Forall dataWrite pre -> localError err = true ->
    p = (pre ++ [EvWritePacket header None; EvReadPacket])%list ->
    r = Some err ->
    requestShape r p
| Completed (pre : list event) :
    Forall dataWrite pre ->
    p = (pre ++ [EvWritePacket header None; EvReadResultOK])%list ->
    r = None \/ (exists e, r = Some (ErrResult e)) \/ (exists e, r = Some (ErrClose e)) ->
    requestShape r p.

(** The values of [encodedLoadData] that do not panic: every value but a
    timestamp whose year, once converted and offset, is outside 0..9999. *)
Definition encodable (L : time.Location) (x : Value) : Prop :=
  match x with
  | VTime t => time.IsZero t = true \/ 0 <= time.Year (adjusted L t) <= 9999
  | _ => True
  end.

(** ** Sample data *)

(** A float formatter for the examples that format no float. *)
Definition noFloat : float -> ascii -> Z -> Z -> string := fun _ _ _ _ => EmptyString.

(** The timestamp of the driver's test, the first instant of year 10000,
    and a day of the year before year 0. *)
Definition testTime : time.Time := time.DateUTC 2014 12 31 12 13 24 0.
Definition year10000 : time.Time := time.DateUTC 10000 1 1 0 0 0 0.
Definition yearMinus1 : time.Time := time.DateUTC (-1) 6 15 0 0 0 0.

Definition sampleConn : mysqlConn :=
  {| cfg := {| AllowAllFiles := false; Loc := time.UTC |};
     maxWriteSize := 16777215;
     inLoadData := false;
     maxLoadDataSize := 0;
     loadData := EmptyString |}.

(** A reader that gives two bytes and then the end of the stream, and one
    that gives two bytes and then fails; neither is an [io.Closer]. *)
Definition twoBytes : Reader :=
  {| readerReads := fun _ => [ {| readBytes := "ab"; readErr := None |};
                               {| readBytes := EmptyString; readErr := Some ReadEOF |} ];
     closer := None |}.

Definition failingReader : Reader :=
  {| readerReads := fun _ => [ {| readBytes := "ab"; readErr := None |};
                               {| readBytes := EmptyString; readErr := Some (ReadFailure 5) |} ];
     closer := None |}.

(** Registries with the file "/tmp/data.csv" and the readers "data",
    "broken" and "nil", the last one with a handler that returns nil; no
    file can be opened; [w] gives the results of [writePacket]. *)
Definition sampleEnv (w : nat -> option nat) : Env :=
  {| registers :=
       RegisterReaderHandler "nil" (fun _ => None)
         (RegisterReaderHandler "broken" (fun _ => Some failingReader)
            (RegisterReaderHandler "data" (fun _ => Some twoBytes)
               (RegisterLocalFile "/tmp/data.csv" noRegisters)));
     osOpen := fun _ => inl 2%nat;
     writePacketResult := w;
     readResultOKResult := None;
     readPacketResult := Some 9%nat |}.

(** The reads of a file with the given content: pieces of the capacity of
    the buffer, then the end of the file. *)
Fixpoint piecesOf (fuel : nat) (capacity : nat) (content : string) : list ReadResult :=
  match fuel, content with
  | O, _ | _, EmptyString => []
  | S fuel', _ =>
      {| readBytes := GoString.take capacity content; readErr := None |} ::
      piecesOf fuel' capacity (GoString.drop capacity content)
  end.

Definition fileOf (content : string) : File :=
  {| fileStat := inr (Z.of_nat (String.length content));
     fileReads := fun capacity => piecesOf (String.length content) (Z.to_nat capacity) content;
     fileClose := None |}.

(** A file system with the one file "/tmp/data.csv", of five bytes. *)
Definition sampleFiles (name : string) : nat + File :=
  if String.eqb name "/tmp/data.csv" then inr (fileOf "a,b,c") else inl 2%nat.

(** The sample environment with that file system, and a connection that
    cannot write more than three bytes at a time. *)
Definition fileEnv : Env :=
  {| registers := RegisterLocalFile "/tmp/data.csv" noRegisters;
     osOpen := sampleFiles;
     writePacketResult := fun _ => None;
     readResultOKResult := None;
     readPacketResult := None |}.

Definition smallConn : mysqlConn :=
  {| cfg := {| AllowAllFiles := false; Loc := time.UTC |};
     maxWriteSize := 3;
     inLoadData := false;
     maxLoadDataSize := 0;
     loadData := EmptyString |}.

Definition allWritesSucceed : nat -> option nat := fun _ => None.
Definition allWritesFail : nat -> option nat := fun _ => Some 1%nat.

(** ** Vocabulary of the further properties *)

(** Reading escaped text back, as the receiver of a row does: a backslash
    and the byte after it stand for one byte. *)
Definition unescapeByte (c : ascii) : ascii :=
  if Ascii.eqb c "n" then LF
  else if Ascii.eqb c "r" then CR
  else if Ascii.eqb c "t" then TAB
  else c.

Fixpoint unescapeText (s : string) : string :=
  match s with
  | EmptyString => EmptyString
  | String c r =>
      if Ascii.eqb c backslash then
        match r with
        | EmptyString => EmptyString
        | String d r' => String (unescapeByte d) (unescapeText r')
        end
      else String c (unescapeText r)
  end.

(** The bytes that delimit fields and rows: tab, newline and carriage
    return. *)
Definition isDelimiter (c : ascii) : bool :=
  Ascii.eqb c TAB || Ascii.eqb c LF || Ascii.eqb c CR.

(** No byte of the string is a delimiter. *)
Fixpoint rawFree (s : string) : bool :=
  match s with
  | EmptyString => true
  | String c r => negb (isDelimiter c) && rawFree r
  end.

(** How often a byte occurs in a string. *)
Fixpoint countByte (b : ascii) (s : string) : nat :=
  match s with
  | EmptyString => O
  | String c r => ((if Ascii.eqb c b then 1 else 0) + countByte b r)%nat
  end.

(** The number of bytes of a string that [escapedText] escapes. *)
Fixpoint countEscaped (s : string) : nat :=
  match s with
  | EmptyString => O
  | String c r => ((if escapeNeeded c then 1 else 0) + countEscaped r)%nat
  end.

(** The two bytes that mark NULL in a row. *)
Definition nullMarker : string := String backslash "N".

Definition isNullMarker (o : option string) : bool :=
  match o with
  | Some s => String.eqb s nullMarker
  | None => false
  end.

(** The microsecond an instant rounds to, half a microsecond rounding up,
    counted from the zero instant. *)
Definition instant_rounded (t : time.Time) : Z := (time.instant t + 500) / 1000.

(** The calls on the source and the data packets: what the read loop
    does. *)
Definition isTransfer (e : event) : bool :=
  match e with
  | EvRead _ | EvWritePacket _ _ => true
  | _ => false
  end.

Definition isClose (e : event) : bool :=
  match e with
  | EvClose => true
  | _ => false
  end.

Definition isRead (e : event) : bool :=
  match e with
  | EvRead _ => true
  | _ => false
  end.

Definition isHandler (e : event) : bool :=
  match e with
  | EvHandler _ => true
  | _ => false
  end.

(** The bytes after the reserved header of the packets of a trace, in
    order. *)
Fixpoint payloads (tr : list event) : string :=
  match tr with
  | [] => EmptyString
  | EvWritePacket data _ :: rest => GoString.drop 4 data ++ payloads rest
  | _ :: rest => payloads rest
  end.

(** The answers of a reader that the read loop consumes when no write
    fails: all up to the first one with an error, that one included. *)
Fixpoint upToError (answers : list ReadResult) : list ReadResult :=
  match answers with
  | [] => []
  | a :: rest =>
      a :: match readErr a with
           | None => upToError rest
           | Some _ => []
           end
  end.

Fixpoint allBytes (answers : list ReadResult) : string :=
  match answers with
  | [] => EmptyString
  | a :: rest => readBytes a ++ allBytes rest
  end.

(** The contract of [io.Reader]: a [Read] stores no more bytes than the
    buffer holds. *)
Definition withinCapacity (r : reads) : Prop :=
  forall (capacity : Z) (a : ReadResult),
    0 < capacity -> In a (r capacity) -> Z.of_nat (String.length (readBytes a)) <= capacity.

(** The packet size of lines 102-105. *)
Definition initialPacketSize (mc : mysqlConn) : Z :=
  if maxWriteSize mc <? 16 * 1024 then maxWriteSize mc else 16 * 1024.

(** The [Close] that a run ends with, if one was deferred. *)
Definition closeEvents (d : option (option nat)) : list event :=
  match d with
  | Some _ => [EvClose]
  | None => []
  end.

(** The source of a request for the reader [n] whose handler returned
    [rd], and of a request for a file that was opened and measured. *)
Definition readerSource (mc : mysqlConn) (rd : Reader) : Source :=
  {| rdr := inl (readerReads rd); packetSize := initialPacketSize mc; deferred := closer rd |}.

Definition fileSource (mc : mysqlConn) (file : File) (size : Z) : Source :=
  {| rdr := inl (fileReads file);
     packetSize := if size <? initialPacketSize mc then size else initialPacketSize mc;
     deferred := Some (fileClose file) |}.

(** The state of a run after the given events and no write. *)
Definition after (mc : mysqlConn) (tr : list event) : State :=
  {| conn := mc; trace := tr; writes := O |}.

(** A reader that is an [io.Closer]: it gives one byte together with the
    end of the stream, and its [Close] fails. *)
Definition closingReader : Reader :=
  {| readerReads := fun _ => [ {| readBytes := "z"; readErr := Some ReadEOF |} ];
     closer := Some (Some 7%nat) |}.

Definition closerEnv : Env :=
  {| registers := RegisterReaderHandler "closing" (fun _ => Some closingReader) noRegisters;
     osOpen := fun _ => inl 2%nat;
     writePacketResult := fun _ => None;
     readResultOKResult := None;
     readPacketResult := None |}.

(** A connection that may not write any byte. *)
Definition noRoomConn : mysqlConn :=
  {| cfg := {| AllowAllFiles := false; Loc := time.UTC |};
     maxWriteSize := 0;
     inLoadData := false;
     maxLoadDataSize := 0;
     loadData := EmptyString |}.

(** The name of the reader in a name that carries the prefix (line 113). *)
Definition readerName (name : string) : string :=
  GoString.drop (Z.to_nat (GoString.Index name "Reader::" + 8)) name.

(** A name between two quotes. *)
Definition quoted (s : string) : string := String quote (s ++ String quote EmptyString).

(** The rows of a load that are not yet on the wire: the buffer behind its
    reserved header. *)
Definition pending (s : State) : string := GoString.drop 4 (loadData (conn s)).

(** ** The tests of the driver (infile_test.go) *)

(** The table of [Test_escapedText]: the argument and the wanted result. *)
Definition escapedTextTests : list (string * string) :=
  [ ("test", "test");
    ("t" ++ String TAB "est", "t" ++ String backslash "test");
    ("t" ++ String LF "est", "t" ++ String backslash "nest");
    ("t" ++ String CR "est", "t" ++ String backslash "rest");
    ("t" ++ String backslash "est", "t" ++ String backslash (String backslash "est"));
    ("t" ++ String TAB (String LF (String CR (String backslash "est"))),
     "t" ++ String backslash ("t" ++ String backslash ("n" ++ String backslash ("r" ++
       String backslash (String backslash "est"))))) ].

(** The test fails for an entry when the result differs from the wanted
    one; [true] when no entry fails. *)
Definition Test_escapedText : bool :=
  forallb (fun tt => String.eqb (escapedText (fst tt)) (snd tt)) escapedTextTests.

(** The table of [Test_encodedLoadData]; the float is [float64(42.23)]. *)
Definition encodedLoadDataTests : list (Value * string) :=
  [ (VString "test", "test");
    (VInt64 42, "42");
    (VUint64 42, "42");
    (VFloat64 0x1.51d70a3d70a3dp+5%float, "42.23");
    (VBool true, "1");
    (VBool false, "0");
    (VNil, String backslash "N");
    (VTime {| time.instant := 0; time.location := time.UTC |}, "0000-00-00");
    (VTime (time.DateUTC 2014 12 31 12 13 24 0), "2014-12-31 12:13:24");
    (VBytes None, String backslash "N");
    (VBytes (Some "test"), "test") ].

Definition Test_encodedLoadData
    (FormatFloat : float -> ascii -> Z -> Z -> string) (mc : mysqlConn) : bool :=
  forallb (fun tt => bool_decide (encodedLoadData FormatFloat (Loc (cfg mc)) (fst tt)
                                  = Some (snd tt)))
    encodedLoadDataTests.

(** A formatter that knows the number of the test. *)
Definition testFloat : float -> ascii -> Z -> Z -> string := fun _ _ _ _ => "42.23".

(** Unfolds the operations of [M] in the goal. *)
Ltac unfold_M :=
  unfold writePacket, readResultOK, readPacket, setLoadData, setInLoadData,
    setConn, getConn, emit, mbind, mret, M_bind, M_ret in *.

(** * Properties *)

(** ** Strings *)

Lemma append_String (c : ascii) (s t : string) : String c s ++ t = String c (s ++ t).
Proof. reflexivity. Qed.

Lemma append_Empty (t : string) : EmptyString ++ t = t.
Proof. reflexivity. Qed.

Lemma append_nil_r (s : string) : s ++ EmptyString = s.
Proof.
  induction s as [|c s IH]; [reflexivity |].
  now rewrite append_String, IH.
Qed.

Lemma append_assoc (s1 s2 s3 : string) : (s1 ++ s2) ++ s3 = s1 ++ (s2 ++ s3).
Proof.
  induction s1 as [|c s1 IH]; [reflexivity |].
  now rewrite !append_String, IH.
Qed.

Lemma length_append (s1 s2 : string) :
  String.length (s1 ++ s2) = (String.length s1 + String.length s2)%nat.
Proof.
  induction s1 as [|c s1 IH]; [reflexivity |].
  rewrite append_String; simpl. now rewrite IH.
Qed.

Lemma take_drop (n : nat) (s : string) : GoString.take n s ++ GoString.drop n s = s.
Proof.
  revert s; induction n as [|n IH]; intros [|c s]; simpl; try reflexivity.
  now rewrite append_String, IH.
Qed.

(** ** escapedText *)

Lemma appendByte_escapeOf (result : string) (c : ascii) :
  appendByte result c = result ++ escapeOf c.
Proof.
  unfold appendByte, escapeOf.
  repeat (destruct (Ascii.eqb c _); [reflexivity |]); reflexivity.
Qed.

(** The second loop appends the escaped form of the rest to [result]. *)
Lemma appendEscaped_escapeRowText (text result : string) :
  appendEscaped result text = result ++ escapeRowText text.
Proof.
  revert result; induction text as [|c rest IH]; intros result; simpl.
  - now rewrite append_nil_r.
  - now rewrite IH, appendByte_escapeOf, append_assoc.
Qed.

Lemma escapeOf_plain (c : ascii) :
  escapeNeeded c = false -> escapeOf c = String c EmptyString.
Proof.
  unfold escapeNeeded, escapeOf; intros H.
  apply orb_false_elim in H as [H H3].
  apply orb_false_elim in H as [H H2].
  apply orb_false_elim in H as [H0 H1].
  now rewrite H0, H1, H2, H3.
Qed.

Lemma escapeRowText_plain (text : string) :
  plainText text = true -> escapeRowText text = text.
Proof.
  induction text as [|c rest IH]; simpl; [reflexivity |].
  intros H; apply andb_true_iff in H as [Hc Hr].
  apply negb_true_iff in Hc.
  now rewrite (escapeOf_plain _ Hc), IH.
Qed.

(** The first loop stops at the first byte to escape, if there is one. *)
Lemma scanEscape_None (text : string) (i : nat) :
  scanEscape i text = None <-> plainText text = true.
Proof.
  revert i; induction text as [|c rest IH]; intros i; simpl; [tauto |].
  destruct (escapeNeeded c); simpl; [split; discriminate | apply IH].
Qed.

Lemma scanEscape_Some (text : string) (i startPos : nat) :
  scanEscape i text = Some startPos ->
  (i <= startPos)%nat /\ plainText (GoString.take (startPos - i) text) = true.
Proof.
  revert i; induction text as [|c rest IH]; intros i; simpl; [discriminate |].
  destruct (escapeNeeded c) eqn:Hc.
  - intros [= <-]. now rewrite Nat.sub_diag.
  - intros H; apply IH in H as [Hle Hp]. split; [lia |].
    replace (startPos - i)%nat with (S (startPos - S i)) by lia.
    simpl. now rewrite Hc.
Qed.

Lemma escapeRowText_append (s1 s2 : string) :
  escapeRowText (s1 ++ s2) = escapeRowText s1 ++ escapeRowText s2.
Proof.
  induction s1 as [|c s1 IH]; [reflexivity |].
  rewrite append_String; simpl. now rewrite IH, append_assoc.
Qed.

Lemma escapedText_escapeRowText (text : string) :
  escapedText text = escapeRowText text.
Proof.
  unfold escapedText.
  destruct (scanEscape 0 text) as [startPos|] eqn:Hscan.
  - apply scanEscape_Some in Hscan as [_ Hp]. rewrite Nat.sub_0_r in Hp.
    rewrite appendEscaped_escapeRowText.
    rewrite <- (take_drop startPos text) at 3.
    now rewrite escapeRowText_append, (escapeRowText_plain _ Hp).
  - apply scanEscape_None in Hscan. now rewrite escapeRowText_plain.
Qed.

(** C3. For every input string, [escapedText] is the byte-by-byte
    replacement of the specification: each backslash, newline, carriage
    return and tab becomes its two-character escape where it stands, every
    other byte (a single or double quote among them) stays as it is, and a
    string with none of the four bytes is returned as it came. *)
Theorem escapedText_spec (text : string) :
  escapedText text = escapeRowText text
  /\ (plainText text = true -> escapedText text = text)
  /\ escapeOf backslash = String backslash (String backslash EmptyString)
  /\ escapeOf LF = String backslash "n"
  /\ escapeOf CR = String backslash "r"
  /\ escapeOf TAB = String backslash "t"
  /\ (forall c : ascii,
        c <> backslash -> c <> LF -> c <> CR -> c <> TAB ->
        escapeOf c = String c EmptyString)
  /\ escapedText "'" = "'"
  /\ escapedText (String quote EmptyString) = String quote EmptyString.
Proof.
  split; [apply escapedText_escapeRowText |].
  split.
  { intros H. rewrite escapedText_escapeRowText. now apply escapeRowText_plain. }
  repeat (split; [reflexivity |]).
  split; [| split; reflexivity].
  intros c H1 H2 H3 H4. apply escapeOf_plain. unfold escapeNeeded.
  apply Ascii.eqb_neq in H1, H2, H3, H4. now rewrite H1, H2, H3, H4.
Qed.

(** The cases of the driver's test of [escapedText]. *)
Example escapedText_tests :
  escapedText "test" = "test"
  /\ escapedText ("t" ++ String TAB "est") = "t" ++ String backslash "test"
  /\ escapedText ("t" ++ String LF "est") = "t" ++ String backslash "nest"
  /\ escapedText ("t" ++ String CR "est") = "t" ++ String backslash "rest"
  /\ escapedText ("t" ++ String backslash "est")
     = "t" ++ String backslash (String backslash "est")
  /\ escapedText ("t" ++ String TAB (String LF (String CR (String backslash "est"))))
     = "t" ++ String backslash ("t" ++ String backslash ("n" ++ String backslash
         ("r" ++ String backslash (String backslash "est")))).
Proof. repeat split. Qed.

(** ** The registries *)

Lemma lookupFile_Deregister (g : Registers) (filePath : string) :
  lookupFile (DeregisterLocalFile filePath g) (GoString.TrimByte filePath quote) = false.
Proof.
  unfold lookupFile, DeregisterLocalFile; simpl.
  destruct (fileRegister g) as [m|]; simpl; [| reflexivity].
  now rewrite lookup_delete_eq.
Qed.

Lemma lookupReader_Deregister (g : Registers) (name : string) :
  lookupReader (DeregisterReaderHandler name g) name = None.
Proof.
  unfold lookupReader, DeregisterReaderHandler; simpl.
  destruct (readerRegister g) as [m|]; simpl; [| reflexivity].
  now rewrite lookup_delete_eq.
Qed.

Lemma lookupFile_Register (g : Registers) (filePath : string) :
  lookupFile (RegisterLocalFile filePath g) (GoString.TrimByte filePath quote) = true.
Proof.
  unfold lookupFile, RegisterLocalFile; simpl. now rewrite lookup_insert_eq.
Qed.

Lemma lookupReader_Register (g : Registers) (name : string) (h : handler) :
  lookupReader (RegisterReaderHandler name h g) name = Some h.
Proof.
  unfold lookupReader, RegisterReaderHandler; simpl. now rewrite lookup_insert_eq.
Qed.

Lemma isFileAllowed_Deregister (g : Registers) (p q : string) :
  GoString.TrimByte p quote = GoString.TrimByte q quote ->
  isFileAllowed (DeregisterLocalFile p g) false q = false.
Proof.
  intros E. unfold isFileAllowed. rewrite <- E. simpl. apply lookupFile_Deregister.
Qed.

(** C10. Whatever the registries hold, registering a file path makes it
    allowed and deregistering it afterwards makes the file-allowed check
    (override disabled) false again, also when the three calls write the
    path with different surrounding quotes; registering a reader name makes
    the lookup find the factory and deregistering it afterwards makes the
    lookup miss again. *)
Theorem register_deregister_roundtrip
    (g : Registers) (filePath name : string) (h : handler) :
  isFileAllowed (RegisterLocalFile filePath g) false filePath = true
  /\ isFileAllowed (DeregisterLocalFile filePath (RegisterLocalFile filePath g)) false filePath
     = false
  /\ (forall p q : string,
        GoString.TrimByte p quote = GoString.TrimByte filePath quote ->
        GoString.TrimByte q quote = GoString.TrimByte filePath quote ->
        isFileAllowed (DeregisterLocalFile p (RegisterLocalFile filePath g)) false q = false)
  /\ lookupReader (RegisterReaderHandler name h g) name = Some h
  /\ lookupReader (DeregisterReaderHandler name (RegisterReaderHandler name h g)) name = None.
Proof.
  split; [unfold isFileAllowed; simpl; apply lookupFile_Register |].
  split; [now apply isFileAllowed_Deregister |].
  split; [intros p q Hp Hq; apply isFileAllowed_Deregister; congruence |].
  split; [apply lookupReader_Register | apply lookupReader_Deregister].
Qed.

(** Quotes around a path do not matter to the registry. *)
Example register_quoted :
  isFileAllowed (RegisterLocalFile (String quote ("/a" ++ String quote EmptyString)) noRegisters)
    false "/a" = true
  /\ isFileAllowed noRegisters false "/a" = false
  /\ isFileAllowed noRegisters true "/a" = true.
Proof. repeat split; vm_compute; reflexivity. Qed.

(** ** The row buffer *)

(** The sentinel name starts a programmatic load and does nothing else. *)
Lemma handleInFileRequest_Data (env : Env) (s : State) :
  handleInFileRequest env "Data::Data" s = loadDataStart s.
Proof. reflexivity. Qed.

(** The state after [loadDataStart]. *)
Lemma loadDataStart_state (s : State) :
  let s' := snd (loadDataStart s) in
  maxLoadDataSize (conn s') = Z.min (16 * 1024) (Z.quot (maxWriteSize (conn s)) 2)
  /\ inLoadData (conn s') = true
  /\ loadData (conn s') = loadData (conn s) ++ header
  /\ maxWriteSize (conn s') = maxWriteSize (conn s)
  /\ trace s' = trace s
  /\ writes s' = writes s
  /\ fst (loadDataStart s) = None.
Proof.
  unfold loadDataStart; unfold_M; simpl.
  destruct (Z.ltb_spec (Z.quot (maxWriteSize (conn s)) 2) (16 * 1024)) as [H|H];
    repeat split; lia.
Qed.

(** C5. A request with the sentinel name starts a programmatic load, and
    starting one sets the flush threshold to the smaller of 16 KiB and half
    the maximum write size (Go's integer division), so it exceeds neither,
    whatever the maximum write size; it also raises the loading flag and
    writes the four placeholder bytes into the buffer, and touches nothing
    else. *)
Theorem loadDataStart_threshold (env : Env) (s : State) :
  let s' := snd (loadDataStart s) in
  handleInFileRequest env "Data::Data" s = loadDataStart s
  /\ maxLoadDataSize (conn s') = Z.min (16 * 1024) (Z.quot (maxWriteSize (conn s)) 2)
  /\ maxLoadDataSize (conn s') <= 16 * 1024
  /\ maxLoadDataSize (conn s') <= Z.quot (maxWriteSize (conn s)) 2
  /\ inLoadData (conn s') = true
  /\ loadData (conn s') = loadData (conn s) ++ header
  /\ maxWriteSize (conn s') = maxWriteSize (conn s)
  /\ trace s' = trace s
  /\ fst (loadDataStart s) = None.
Proof.
  destruct (loadDataStart_state s) as (Hm & Hf & Hb & Hw & Ht & _ & Hr).
  cbv zeta. rewrite Hm. split; [reflexivity |]. repeat split; auto; lia.
Qed.

(** For a maximum write size that is not negative the threshold, doubled,
    stays within it. *)
Lemma loadDataStart_half (s : State) :
  0 <= maxWriteSize (conn s) ->
  2 * maxLoadDataSize (conn (snd (loadDataStart s))) <= maxWriteSize (conn s).
Proof.
  intros H. destruct (loadDataStart_state s) as (Hm & _).
  pose proof (Z.quot_pos (maxWriteSize (conn s)) 2 H ltac:(lia)).
  pose proof (Z.mul_quot_le (maxWriteSize (conn s)) 2 H ltac:(lia)).
  lia.
Qed.

(** The traffic, the flag and the result of [loadDataTerminate]. *)
Lemma loadDataTerminate_run (env : Env) (s : State) :
  let w0 := writePacketResult env (writes s) in
  let w1 := writePacketResult env (S (writes s)) in
  let s' := snd (loadDataTerminate env s) in
  trace s' = (trace s ++ terminateTraffic (loadData (conn s)) w0 w1)%list
  /\ inLoadData (conn s') = false
  /\ fst (loadDataTerminate env s)
     = match w0, w1 with
       | Some e, _ => Some (ErrWritePacket e)
       | None, Some e => Some (ErrWritePacket e)
       | None, None => ErrResult <$> readResultOKResult env
       end.
Proof.
  unfold loadDataTerminate, loadDataTerminateBody, loadDataWritePacket, terminateTraffic.
  unfold_M; simpl.
  destruct (writePacketResult env (writes s)) as [e0|]; simpl.
  - repeat split.
  - destruct (writePacketResult env (S (writes s))) as [e1|]; simpl.
    + rewrite <- app_assoc. repeat split.
    + rewrite <- !app_assoc. repeat split.
Qed.

(** C6. [loadDataTerminate] first hands the whole buffer to [writePacket],
    whatever it holds (the four placeholder bytes alone included), so a
    data packet goes out in every run; when that write succeeds it sends
    the packet of four zero bytes, and when that succeeds too it reads the
    completion result.  However it returns, with an error or without, the
    loading flag is false afterwards. *)
Theorem loadDataTerminate_spec (env : Env) (s : State) :
  let w0 := writePacketResult env (writes s) in
  let w1 := writePacketResult env (S (writes s)) in
  let s' := snd (loadDataTerminate env s) in
  trace s' = (trace s ++ terminateTraffic (loadData (conn s)) w0 w1)%list
  /\ (exists rest, terminateTraffic (loadData (conn s)) w0 w1
                   = EvWritePacket (loadData (conn s)) (ErrWritePacket <$> w0) :: rest)
  /\ (w0 = None ->
      exists rest, terminateTraffic (loadData (conn s)) w0 w1
                   = EvWritePacket (loadData (conn s)) None ::
                     EvWritePacket header (ErrWritePacket <$> w1) :: rest)
  /\ inLoadData (conn s') = false
  /\ fst (loadDataTerminate env s)
     = match w0, w1 with
       | Some e, _ => Some (ErrWritePacket e)
       | None, Some e => Some (ErrWritePacket e)
       | None, None => ErrResult <$> readResultOKResult env
       end.
Proof.
  destruct (loadDataTerminate_run env s) as (Ht & Hf & Hr). cbv zeta.
  split; [exact Ht |]. split; [unfold terminateTraffic; eauto |].
  split; [| split; [exact Hf | exact Hr]].
  intros ->. unfold terminateTraffic. eauto.
Qed.

(** A load that is started on an empty buffer and terminated with no row
    appended sends the header alone as its data packet. *)
Lemma start_terminate_no_rows (env : Env) (mc : mysqlConn) :
  loadData mc = EmptyString ->
  let s := snd (run (loadDataStart;; loadDataTerminate env) mc) in
  trace s = terminateTraffic header (writePacketResult env 0%nat) (writePacketResult env 1%nat)
  /\ inLoadData (conn s) = false.
Proof.
  intros Hb.
  pose proof (loadDataStart_state {| conn := mc; trace := []; writes := 0 |}) as Hst.
  cbv zeta. unfold run, mbind, M_bind.
  destruct (loadDataStart _) as [r s1].
  cbv zeta in Hst; simpl fst in Hst; simpl snd in Hst.
  destruct Hst as (_ & _ & Hbuf & _ & Htr & Hw & _). simpl in Hbuf, Htr, Hw.
  pose proof (loadDataTerminate_run env s1) as (Ht & Hf & _).
  rewrite Ht, Hf, Htr, Hbuf, Hb, Hw. now split.
Qed.

(** The same on the sample connection with a transport that works: the
    header-only data packet, the termination packet, the completion read. *)
Example start_terminate_sample :
  trace (snd (run (loadDataStart;; loadDataTerminate (sampleEnv allWritesSucceed)) sampleConn))
  = [EvWritePacket header None; EvWritePacket header None; EvReadResultOK].
Proof. vm_compute. reflexivity. Qed.

(** A row of three columns is appended to the buffer with tabs between
    the encoded columns and a newline at the end; it stays in the buffer
    while the buffer is within the threshold, and a row without columns
    terminates the load. *)
Example loadDataWrite_row :
  let s1 := snd (run loadDataStart sampleConn) in
  let env := sampleEnv allWritesSucceed in
  (loadData ∘ conn ∘ snd <$>
     loadDataWrite noFloat env [VInt64 1; VString ("a" ++ String TAB "b"); VNil] s1)
  = Some (header ++ "1" ++ String TAB ("a" ++ String backslash "tb") ++
          String TAB (String backslash "N") ++ String LF EmptyString)
  /\ (trace ∘ snd <$>
        loadDataWrite noFloat env [VInt64 1; VString ("a" ++ String TAB "b"); VNil] s1)
     = Some []
  /\ (trace ∘ snd <$> loadDataWrite noFloat env [] s1)
     = Some [EvWritePacket header None; EvWritePacket header None; EvReadResultOK].
Proof. repeat split; vm_compute; reflexivity. Qed.

(** ** The request dispatcher *)

Lemma protocol_app (a b : list event) : protocol (a ++ b) = (protocol a ++ protocol b)%list.
Proof. apply filter_app. Qed.

Lemma header_append_ne (b : string) : (0 < String.length b)%nat -> header ++ b <> header.
Proof.
  intros Hb H. apply (f_equal String.length) in H.
  rewrite length_append in H. simpl in H. lia.
Qed.

(** The read loop sends data packets only; it is left by [return ioErr]
    right after the write that failed, and otherwise with [io.EOF] or with
    the reader's own error.  It opens nothing and leaves the connection as
    it is. *)
Lemma readLoop_traffic (env : Env) (answers : list ReadResult) (s : State) :
  let x := fst (readLoop env answers s) in
  let s' := snd (readLoop env answers s) in
  conn s' = conn s
  /\ exists evs pre,
       trace s' = (trace s ++ evs)%list
       /\ Forall (λ e, isOpen e = false) evs
       /\ Forall dataWrite pre
       /\ match x with
          | Returned ioErr =>
              exists data e,
                data <> header
                /\ protocol evs = (pre ++ [EvWritePacket data (Some (ErrWritePacket e))])%list
                /\ ioErr = ErrWritePacket e
          | Ended err =>
              protocol evs = pre /\ (err = EOF \/ exists e, err = ErrRead e)
          end.
Proof.
  revert s; induction answers as [|a rest IH]; intros s; cbv zeta.
  - simpl. unfold_M; simpl. split; [reflexivity |].
    exists [EvRead 0], []. repeat split; auto.
  - simpl. unfold_M.
    destruct (0 <? String.length (readBytes a))%nat eqn:Hn; simpl.
    + apply Nat.ltb_lt in Hn.
      destruct (writePacketResult env (writes s)) as [e|] eqn:Hw; simpl.
      * split; [reflexivity |].
        exists [EvRead (String.length (readBytes a));
                EvWritePacket (header ++ readBytes a) (Some (ErrWritePacket e))], [].
        rewrite <- app_assoc. repeat split; auto.
        exists (header ++ readBytes a), e. repeat split. now apply header_append_ne.
      * destruct (readErr a) as [re|] eqn:Hre.
        -- simpl. split; [reflexivity |].
           exists [EvRead (String.length (readBytes a));
                   EvWritePacket (header ++ readBytes a) None],
                  [EvWritePacket (header ++ readBytes a) None].
           rewrite <- app_assoc. repeat split; auto.
           ++ constructor; [| constructor].
              exists (header ++ readBytes a). split; [reflexivity |].
              now apply header_append_ne.
           ++ destruct re; [left | right]; eauto.
        -- specialize (IH {| conn := conn s;
                             trace := (trace s ++ [EvRead (String.length (readBytes a))]) ++
                                      [EvWritePacket (header ++ readBytes a) None];
                             writes := S (writes s) |}).
           cbv zeta in IH. destruct IH as (Hc & evs & pre & Ht & Ho & Hp & Hx).
           split; [exact Hc |].
           exists (EvRead (String.length (readBytes a)) ::
                   EvWritePacket (header ++ readBytes a) None :: evs),
                  (EvWritePacket (header ++ readBytes a) None :: pre).
           split; [rewrite Ht; simpl; now rewrite <- !app_assoc |].
           split; [repeat constructor; assumption |].
           split.
           { constructor; [| assumption].
             exists (header ++ readBytes a). split; [reflexivity |].
             now apply header_append_ne. }
           destruct (fst (readLoop env rest _)) as [ioErr|err].
           ++ destruct Hx as (data & e & Hd & Hpr & He).
              exists data, e. repeat split; auto.
              change (protocol (?a :: ?b :: evs)) with (b :: protocol evs).
              now rewrite Hpr.
           ++ destruct Hx as [Hpr Herr]. split; [| exact Herr].
              change (protocol (?a :: ?b :: evs)) with (b :: protocol evs).
              now rewrite Hpr.
    + destruct (readErr a) as [re|] eqn:Hre.
      * simpl. split; [reflexivity |].
        exists [EvRead (String.length (readBytes a))], []. repeat split; auto.
        destruct re; [left | right]; eauto.
      * specialize (IH {| conn := conn s;
                          trace := trace s ++ [EvRead (String.length (readBytes a))];
                          writes := writes s |}).
        cbv zeta in IH. destruct IH as (Hc & evs & pre & Ht & Ho & Hp & Hx).
        split; [exact Hc |].
        exists (EvRead (String.length (readBytes a)) :: evs), pre.
        split; [rewrite Ht; simpl; now rewrite <- !app_assoc |].
        split; [repeat constructor; assumption |].
        split; [assumption |].
        destruct (fst (readLoop env rest _)) as [ioErr|err]; exact Hx.
Qed.

Lemma resolveReader_resolved (env : Env) (name : string) (packetSize : Z) (s : State) :
  resolved s (resolveReader env name packetSize s).
Proof.
  unfold resolved, resolveReader.
  destruct (lookupReader (registers env) name) as [h|]; unfold_M; simpl.
  - destruct (h tt) as [r|]; simpl; repeat split; auto;
      exists [EvHandler name]; split; reflexivity.
  - repeat split; auto. exists []. now rewrite app_nil_r.
Qed.

Lemma resolveFile_resolved (env : Env) (a : bool) (name : string) (packetSize : Z) (s : State) :
  resolved s (resolveFile env a name packetSize s).
Proof.
  unfold resolved, resolveFile.
  destruct (a || lookupFile _ _); unfold_M; simpl.
  - destruct (osOpen env _) as [e|file]; simpl.
    + repeat split; auto. eexists [EvOpen _]; split; reflexivity.
    + destruct (fileStat file) as [e|size]; simpl; repeat split; auto;
        eexists [EvOpen _; EvStat]; rewrite <- app_assoc; split; reflexivity.
  - repeat split; auto. exists []. now rewrite app_nil_r.
Qed.

(** Lines 156-172 send data packets only; [return ioErr] comes right after
    the write that failed; the error left in [err] is a local one. *)
Lemma sendContent_traffic (env : Env) (src : Source) (s : State) :
  match rdr src with
  | inr err => localError err = true
  | inl _ => True
  end ->
  let x := fst (sendContent env src s) in
  let s' := snd (sendContent env src s) in
  conn s' = conn s
  /\ exists evs pre,
       trace s' = (trace s ++ evs)%list
       /\ Forall (λ e, isOpen e = false) evs
       /\ Forall dataWrite pre
       /\ match x with
          | inl ioErr =>
              exists data e,
                data <> header
                /\ protocol evs = (pre ++ [EvWritePacket data (Some (ErrWritePacket e))])%list
                /\ ioErr = ErrWritePacket e
          | inr None => protocol evs = pre
          | inr (Some err) => protocol evs = pre /\ localError err = true
          end.
Proof.
  intros Hsrc. unfold sendContent.
  destruct (rdr src) as [r|err].
  - destruct (0 <? packetSize src).
    + pose proof (readLoop_traffic env (r (packetSize src)) s) as H.
      cbv zeta in H |- *. unfold mbind, M_bind.
      destruct (readLoop env (r (packetSize src)) s) as [x s1]; simpl in H.
      destruct H as (Hc & evs & pre & Ht & Ho & Hp & Hx).
      destruct x as [ioErr|err].
      * simpl. split; [exact Hc |]. exists evs, pre. repeat split; auto.
      * destruct Hx as [Hpr [->|[e ->]]]; simpl; (split; [exact Hc |]);
          exists evs, pre; repeat split; auto.
    + simpl. split; [reflexivity |]. exists [], []. rewrite app_nil_r. repeat split; auto.
  - simpl. split; [reflexivity |]. exists [], []. rewrite app_nil_r. repeat split; auto.
Qed.

(** Lines 174-188: the termination packet, and after it the completion
    read when [err] is nil, and otherwise the drain, whose result is
    dropped in favour of [err]. *)
Lemma terminate_traffic (env : Env) (err : option error) (s : State) :
  let w := writePacketResult env (writes s) in
  conn (snd (terminate env err s)) = conn s
  /\ trace (snd (terminate env err s))
     = (trace s ++ EvWritePacket header (ErrWritePacket <$> w) ::
        match w, err with
        | Some _, _ => []
        | None, None => [EvReadResultOK]
        | None, Some _ => [EvReadPacket]
        end)%list
  /\ fst (terminate env err s)
     = match w, err with
       | Some e, _ => Some (ErrWritePacket e)
       | None, None => ErrResult <$> readResultOKResult env
       | None, Some e => Some e
       end.
Proof.
  unfold terminate; unfold_M; simpl.
  destruct (writePacketResult env (writes s)) as [e|]; simpl; [repeat split |].
  destruct err as [e|]; simpl; rewrite <- app_assoc; repeat split.
Qed.

(** The deferred [Close] is no protocol traffic and never replaces an
    error. *)
Lemma deferredClose_traffic (d : option (option nat)) (r : option error) (s : State) :
  conn (snd (deferredClose d r s)) = conn s
  /\ (exists evs, trace (snd (deferredClose d r s)) = (trace s ++ evs)%list
               /\ protocol evs = [] /\ Forall (λ e, isOpen e = false) evs)
  /\ match r with
     | Some e => fst (deferredClose d r s) = Some e
     | None => fst (deferredClose d r s) = None
               \/ exists e, fst (deferredClose d r s) = Some (ErrClose e)
     end.
Proof.
  unfold deferredClose; unfold_M.
  destruct d as [closeErr|]; simpl.
  - destruct r as [e|]; simpl.
    + split; [reflexivity |]. split; [exists [EvClose]; repeat split; auto |]. reflexivity.
    + split; [reflexivity |]. split; [exists [EvClose]; repeat split; auto |].
      destruct closeErr as [e|]; simpl; eauto.
  - split; [reflexivity |]. split; [exists []; rewrite app_nil_r; repeat split; auto |].
    destruct r; auto.
Qed.

Lemma finishRequest_shape (env : Env) (src : Source) (s : State) :
  protocol (trace s) = [] ->
  match rdr src with
  | inr err => localError err = true
  | inl _ => True
  end ->
  requestShape (fst (finishRequest env src s))
               (protocol (trace (snd (finishRequest env src s)))).
Proof.
  intros Hs Hsrc. unfold finishRequest. unfold mbind, M_bind.
  pose proof (sendContent_traffic env src s Hsrc) as H. cbv zeta in H.
  destruct (sendContent env src s) as [x s1]; simpl in H.
  destruct H as (_ & evs & pre & Ht & _ & Hpre & Hx).
  destruct x as [ioErr|err].
  - (* return ioErr *)
    destruct Hx as (data & e & Hd & Hp & ->).
    unfold mret, M_ret. cbv beta iota.
    destruct (deferredClose_traffic (deferred src) (Some (ErrWritePacket e)) s1)
      as (_ & (cl & Htc & Hpc & _) & Hr).
    destruct (deferredClose _ _ s1) as [r s2]; simpl in *.
    apply (DataWriteFailed _ _ pre data e); auto.
    rewrite Htc, Ht, !protocol_app, Hs, Hp, Hpc. now rewrite app_nil_r.
  - destruct (terminate_traffic env err s1) as (_ & Htt & Hrt). cbv zeta in Htt, Hrt.
    destruct (terminate env err s1) as [r1 s2]; simpl in Htt, Hrt.
    destruct (deferredClose_traffic (deferred src) r1 s2) as (_ & (cl & Htc & Hpc & _) & Hr).
    destruct (deferredClose _ _ s2) as [r s3]; simpl in *.
    assert (Hp1 : protocol (trace s1) = pre).
    { rewrite Ht, protocol_app, Hs. destruct err as [err|]; [apply Hx | exact Hx]. }
    rewrite Htc, protocol_app, Hpc, app_nil_r, Htt, protocol_app, Hp1.
    destruct (writePacketResult env (writes s1)) as [e|]; simpl in *.
    + subst r1. apply (TerminationFailed _ _ pre e); auto.
    + destruct err as [err|]; simpl in *.
      * subst r1. destruct Hx as [_ Hl]. apply (LocalFailure _ _ pre err); auto.
      * apply (Completed _ _ pre); auto.
        destruct (readResultOKResult env) as [e|]; simpl in *; subst r1; eauto.
        destruct Hr as [->|[e ->]]; eauto.
Qed.

(** Every request for a reader or a file goes one of the four ways. *)
Lemma handleInFileRequest_shape (env : Env) (name : string) (mc : mysqlConn) :
  String.eqb name "Data::Data" = false ->
  requestShape (fst (run (handleInFileRequest env name) mc))
               (protocol (trace (snd (run (handleInFileRequest env name) mc)))).
Proof.
  intros Hname. unfold run, handleInFileRequest. unfold mbind at 1. unfold M_bind, getConn.
  rewrite Hname. cbv zeta. unfold mbind, M_bind.
  set (s0 := {| conn := mc; trace := []; writes := 0 |}).
  match goal with
  | |- context [(if readerPrefixed name then ?f else ?g) s0] =>
      assert (Hres : resolved s0 ((if readerPrefixed name then f else g) s0))
        by (destruct (readerPrefixed name);
            [apply resolveReader_resolved | apply resolveFile_resolved]);
      destruct ((if readerPrefixed name then f else g) s0) as [src s1]
  end.
  destruct Hres as (_ & (evs & Ht & Hp) & Hsrc); simpl in *.
  apply finishRequest_shape; [| exact Hsrc].
  now rewrite Ht, Hp.
Qed.

(** The sentinel name causes no traffic and no error. *)
Lemma handleInFileRequest_sentinel (env : Env) (mc : mysqlConn) :
  fst (run (handleInFileRequest env "Data::Data") mc) = None
  /\ trace (snd (run (handleInFileRequest env "Data::Data") mc)) = [].
Proof. split; reflexivity. Qed.




(** C7, as the code has it.  A request for a reader or a file (any name but
    the sentinel of a programmatic load) sends the termination packet, the
    four header bytes alone, right after the data packets that went out,
    and at most one read follows it; the one exception is a failed write
    of a data packet, which is returned at once and is then the last
    traffic.  In particular the termination packet is sent whenever the
    request returns a local error, a stream-read error included. *)
Theorem handleInFileRequest_termination (env : Env) (name : string) (mc : mysqlConn) :
  String.eqb name "Data::Data" = false ->
  let r := fst (run (handleInFileRequest env name) mc) in
  let p := protocol (trace (snd (run (handleInFileRequest env name) mc))) in
  ((exists pre w post,
      Forall dataWrite pre
      /\ p = (pre ++ EvWritePacket header w :: post)%list
      /\ (post = [] \/ post = [EvReadPacket] \/ post = [EvReadResultOK]))
   \/ (exists pre data e,
         Forall dataWrite pre /\ data <> header
         /\ p = (pre ++ [EvWritePacket data (Some (ErrWritePacket e))])%list
         /\ r = Some (ErrWritePacket e)))
  /\ (forall err, r = Some err -> localError err = true ->
        exists pre, Forall dataWrite pre
                    /\ p = (pre ++ [EvWritePacket header None; EvReadPacket])%list).
Proof.
  intros Hname; cbv zeta.
  pose proof (handleInFileRequest_shape env name mc Hname) as H.
  split.
  - destruct H as [pre data e Hpre Hd Hp Hr | pre e Hpre Hp Hr
                  | pre err Hpre Hl Hp Hr | pre Hpre Hp Hr].
    + right. exists pre, data, e; auto.
    + left. exists pre, (Some (ErrWritePacket e)), []; auto.
    + left. exists pre, None, [EvReadPacket]; auto.
    + left. exists pre, None, [EvReadResultOK]; auto.
  - intros err Hr Hl. rewrite Hr in H.
    destruct H as [pre data e _ _ _ [= ->] | pre e _ _ [= ->]
                  | pre err' Hpre _ Hp _ | pre _ _ [? | [[e [= ->]] | [e [= ->]]]]];
      try discriminate.
    exists pre; auto.
Qed.

(** C8. A request whose name is taken as a file path (neither the sentinel
    nor a reader name) and whose path, trimmed of its quotes, is not in the
    whitelist while the override is off: resolution yields the
    authorization failure, no [os.Open] is attempted anywhere in the
    request, the only traffic is the termination packet and the drain, and
    the request returns the authorization failure (the failure of the
    termination write, if that write fails). *)
Theorem unauthorized_file_not_opened (env : Env) (name : string) (mc : mysqlConn) :
  String.eqb name "Data::Data" = false ->
  readerPrefixed name = false ->
  isFileAllowed (registers env) (AllowAllFiles (cfg mc)) name = false ->
  let r := fst (run (handleInFileRequest env name) mc) in
  let tr := trace (snd (run (handleInFileRequest env name) mc)) in
  let w := writePacketResult env 0%nat in
  (forall packetSize s,
     rdr (fst (resolveFile env (AllowAllFiles (cfg mc)) name packetSize s))
     = inr (ErrLocalFileNotRegistered (GoString.TrimByte name quote)))
  /\ Forall (λ e, isOpen e = false) tr
  /\ tr = EvWritePacket header (ErrWritePacket <$> w) ::
          match w with
          | Some _ => []
          | None => [EvReadPacket]
          end
  /\ r = match w with
         | Some e => Some (ErrWritePacket e)
         | None => Some (ErrLocalFileNotRegistered (GoString.TrimByte name quote))
         end.
Proof.
  intros Hname Hpre Hallow; cbv zeta. unfold isFileAllowed in Hallow.
  split.
  { intros packetSize s. unfold resolveFile. now rewrite Hallow. }
  unfold run, handleInFileRequest, resolveFile. unfold mbind, M_bind, getConn.
  cbn [conn fst snd]. rewrite Hname, Hpre, Hallow.
  unfold finishRequest, sendContent, terminate, deferredClose; unfold_M; simpl.
  destruct (writePacketResult env 0%nat) as [e|]; simpl; repeat split; repeat constructor.
Qed.

(** The request of C1 in each of its failures, with a transport that works:
    the traffic ends with the termination packet and the drain, and the
    error is the local one although the drain reports an error of its
    own. *)
Example handleInFileRequest_failures :
  let go name := let x := run (handleInFileRequest (sampleEnv allWritesSucceed) name) sampleConn
                 in (fst x, trace (snd x)) in
  go "/etc/passwd"
  = (Some (ErrLocalFileNotRegistered "/etc/passwd"),
     [EvWritePacket header None; EvReadPacket])
  /\ go "Reader::absent"
     = (Some (ErrReaderNotRegistered "absent"), [EvWritePacket header None; EvReadPacket])
  /\ go "Reader::nil"
     = (Some (ErrReaderIsNil "nil"),
        [EvHandler "nil"; EvWritePacket header None; EvReadPacket])
  /\ go "/tmp/data.csv"
     = (Some (ErrOpen 2),
        [EvOpen "/tmp/data.csv"; EvWritePacket header None; EvReadPacket])
  /\ go "/var/lib/Reader::broken"
     = (Some (ErrRead 5),
        [EvHandler "broken"; EvRead 2; EvWritePacket (header ++ "ab") None; EvRead 0;
         EvWritePacket header None; EvReadPacket])
  /\ go "Reader::data"
     = (None,
        [EvHandler "data"; EvRead 2; EvWritePacket (header ++ "ab") None; EvRead 0;
         EvWritePacket header None; EvReadResultOK]).
Proof. repeat split; vm_compute; reflexivity. Qed.

(** A registered file goes out in pieces of the packet size, which is the
    smaller of 16 KiB, the maximum write size and the size of the file; the
    file is closed at the end. *)
Example handleInFileRequest_file :
  (let x := run (handleInFileRequest fileEnv "/tmp/data.csv") sampleConn in
   (fst x, trace (snd x)))
  = (None,
     [EvOpen "/tmp/data.csv"; EvStat; EvRead 5; EvWritePacket (header ++ "a,b,c") None;
      EvRead 0; EvWritePacket header None; EvReadResultOK; EvClose])
  /\ (let x := run (handleInFileRequest fileEnv "/tmp/data.csv") smallConn in
      (fst x, trace (snd x)))
     = (None,
        [EvOpen "/tmp/data.csv"; EvStat; EvRead 3; EvWritePacket (header ++ "a,b") None;
         EvRead 2; EvWritePacket (header ++ ",c") None;
         EvRead 0; EvWritePacket header None; EvReadResultOK; EvClose]).
Proof. split; vm_compute; reflexivity. Qed.

(** The claim of C7 fails on two requests.  When the write of a data packet
    fails, the request returns that failure and no termination packet is
    among its traffic; and the sentinel of a programmatic load returns
    without any traffic. *)
Lemma termination_packet_not_sent :
  fst (run (handleInFileRequest (sampleEnv allWritesFail) "Reader::data") sampleConn)
  = Some (ErrWritePacket 1)
  /\ trace (snd (run (handleInFileRequest (sampleEnv allWritesFail) "Reader::data") sampleConn))
     = [EvHandler "data"; EvRead 2; EvWritePacket (header ++ "ab") (Some (ErrWritePacket 1))]
  /\ existsb isTermination
       (trace (snd (run (handleInFileRequest (sampleEnv allWritesFail) "Reader::data")
                      sampleConn)))
     = false
  /\ fst (run (handleInFileRequest (sampleEnv allWritesSucceed) "Data::Data") sampleConn) = None
  /\ trace (snd (run (handleInFileRequest (sampleEnv allWritesSucceed) "Data::Data")
                   sampleConn))
     = [].
Proof. repeat split; vm_compute; reflexivity. Qed.

Lemma handleInFileRequest_termination_witness :
  exists pre,
    Forall dataWrite pre
    /\ protocol (trace (snd (run (handleInFileRequest (sampleEnv allWritesSucceed)
                                    "Reader::broken") sampleConn)))
       = (pre ++ [EvWritePacket header None; EvReadPacket])%list.
Proof.
  apply (proj2 (handleInFileRequest_termination (sampleEnv allWritesSucceed)
                  "Reader::broken" sampleConn eq_refl) (ErrRead 5));
    reflexivity.
Defined.

Lemma unauthorized_file_not_opened_witness :
  trace (snd (run (handleInFileRequest (sampleEnv allWritesSucceed) "/etc/passwd") sampleConn))
  = [EvWritePacket header None; EvReadPacket]
  /\ fst (run (handleInFileRequest (sampleEnv allWritesSucceed) "/etc/passwd") sampleConn)
     = Some (ErrLocalFileNotRegistered "/etc/passwd").
Proof.
  destruct (unauthorized_file_not_opened (sampleEnv allWritesSucceed) "/etc/passwd" sampleConn
              eq_refl eq_refl eq_refl) as (_ & _ & Ht & Hr).
  split; [exact Ht | exact Hr].
Defined.

(** ** strconv *)

Lemma digit_isDigit (d : Z) : 0 <= d <= 9 -> strconv.isDigit (strconv.digit d) = true.
Proof.
  intros H. assert (Hd : In d [0; 1; 2; 3; 4; 5; 6; 7; 8; 9]) by (simpl; lia).
  simpl in Hd. repeat (destruct Hd as [<-|Hd]; [reflexivity |]). contradiction.
Qed.

Lemma digitVal_digit (d : Z) : 0 <= d <= 9 -> strconv.digitVal (strconv.digit d) = d.
Proof.
  intros H. assert (Hd : In d [0; 1; 2; 3; 4; 5; 6; 7; 8; 9]) by (simpl; lia).
  simpl in Hd. repeat (destruct Hd as [<-|Hd]; [reflexivity |]). contradiction.
Qed.

Lemma digit_zero (d : Z) : 0 <= d <= 9 -> strconv.digit d = "0"%char -> d = 0.
Proof.
  intros H E. apply (f_equal strconv.digitVal) in E.
  now rewrite digitVal_digit in E.
Qed.

Lemma allDigits_String (c : ascii) (r : string) :
  strconv.allDigits (String c r) = strconv.isDigit c && strconv.allDigits r.
Proof. reflexivity. Qed.

Lemma decValue_String (c : ascii) (r : string) :
  strconv.decValue (String c r)
  = strconv.digitVal c * 10 ^ Z.of_nat (String.length r) + strconv.decValue r.
Proof. reflexivity. Qed.

Lemma length_String (c : ascii) (r : string) : String.length (String c r) = S (String.length r).
Proof. reflexivity. Qed.

Lemma div10_lt_pow2 (u : Z) (fuel : nat) :
  10 <= u < 2 ^ Z.of_nat (S fuel) -> 0 <= u / 10 < 2 ^ Z.of_nat fuel.
Proof.
  intros [H1 H2]. rewrite Nat2Z.inj_succ, Z.pow_succ_r in H2 by lia.
  split; [apply Z.div_pos; lia |].
  apply Z.div_lt_upper_bound; lia.
Qed.

(** What [formatBits] writes in front of [acc]: digits only, the first one
    not a zero unless the number is zero, and with the value [u]. *)
Lemma formatBits_spec (fuel : nat) (u : Z) (acc : string) :
  0 <= u < 2 ^ Z.of_nat fuel ->
  exists c r,
    strconv.formatBits fuel u acc = String c r
    /\ strconv.isDigit c = true
    /\ (strconv.allDigits acc = true -> strconv.allDigits r = true)
    /\ (c = "0"%char -> u = 0 /\ r = acc)
    /\ strconv.decValue (String c r)
       = u * 10 ^ Z.of_nat (String.length acc) + strconv.decValue acc.
Proof.
  revert u acc; induction fuel as [|fuel IH]; intros u acc Hu.
  - assert (u = 0) by (simpl in Hu; lia); subst u.
    exists "0"%char, acc; simpl. repeat split; auto.
  - unfold strconv.formatBits; fold strconv.formatBits.
    destruct (Z.ltb_spec u 10) as [Hlt|Hge].
    + exists (strconv.digit u), acc. split; [reflexivity |].
      split; [apply digit_isDigit; lia |].
      split; [auto |].
      split; [intros E; split; [apply digit_zero in E; lia | reflexivity] |].
      rewrite decValue_String, digitVal_digit by lia. reflexivity.
    + destruct (IH (u / 10) (String (strconv.digit (u mod 10)) acc))
        as (c & r & Hf & Hc & Hall & Hz & Hv).
      { apply div10_lt_pow2; lia. }
      exists c, r. split; [exact Hf |]. split; [exact Hc |].
      pose proof (Z.mod_pos_bound u 10 ltac:(lia)) as Hm.
      split.
      { intros Hacc. apply Hall. rewrite allDigits_String, digit_isDigit by lia. exact Hacc. }
      split.
      { intros E. apply Hz in E as [E _].
        pose proof (Z.div_le_lower_bound u 10 1 ltac:(lia) ltac:(lia)). lia. }
      rewrite Hv, (decValue_String _ acc), length_String.
      rewrite digitVal_digit by lia.
      rewrite Nat2Z.inj_succ, Z.pow_succ_r by lia.
      pose proof (Z.div_mod u 10 ltac:(lia)). nia.
Qed.

Lemma FormatUint_fuel (u : Z) : 0 <= u -> 0 <= u < 2 ^ Z.of_nat (Z.to_nat (Z.log2 u) + 1).
Proof.
  intros Hu. split; [exact Hu |].
  destruct (Z.eq_dec u 0) as [->|Hne]; [reflexivity |].
  rewrite Nat2Z.inj_add, Z2Nat.id by apply Z.log2_nonneg.
  change (Z.of_nat 1) with 1.
  pose proof (Z.log2_spec u ltac:(lia)) as [_ H].
  unfold Z.succ in H. exact H.
Qed.

(** [FormatUint] writes the canonical decimal text of a number. *)
Lemma FormatUint_canonical (u : Z) :
  0 <= u ->
  strconv.canonicalUint (strconv.FormatUint u) = true
  /\ strconv.decValue (strconv.FormatUint u) = u
  /\ (0 < u -> exists c r, strconv.FormatUint u = String c r
                           /\ strconv.isDigit c = true /\ c <> "0"%char).
Proof.
  intros Hu. unfold strconv.FormatUint.
  destruct (formatBits_spec _ u EmptyString (FormatUint_fuel u Hu))
    as (c & r & -> & Hc & Hall & Hz & Hv).
  specialize (Hall eq_refl).
  split; [| split].
  - unfold strconv.canonicalUint. destruct r as [|c' r']; [exact Hc |].
    rewrite Hc, Hall. destruct (Ascii.eqb_spec c "0") as [E|E]; [| reflexivity].
    apply Hz in E as [_ E]. discriminate.
  - rewrite Hv. simpl. lia.
  - intros Hpos. exists c, r. repeat split; auto.
    intros E. apply Hz in E as [E _]. lia.
Qed.

Lemma isDigit_not_minus (c : ascii) : strconv.isDigit c = true -> c <> "-"%char.
Proof. intros H ->. discriminate. Qed.

(** [FormatInt] writes the canonical decimal text of an integer. *)
Lemma FormatInt_canonical (i : Z) :
  strconv.canonicalInt (strconv.FormatInt i) = true
  /\ strconv.intValue (strconv.FormatInt i) = i.
Proof.
  unfold strconv.FormatInt. destruct (Z.ltb_spec i 0) as [Hneg|Hpos].
  - destruct (FormatUint_canonical (- i) ltac:(lia)) as (Hc & Hv & Hl).
    destruct (Hl ltac:(lia)) as (c & r & E & Hd & Hnz).
    unfold strconv.canonicalInt, strconv.intValue. rewrite Hc, Hv.
    split; [| lia]. rewrite E. simpl.
    destruct (Ascii.eqb_spec c "0"); [contradiction | reflexivity].
  - destruct (FormatUint_canonical i Hpos) as (Hc & Hv & _).
    unfold strconv.FormatUint in *.
    destruct (formatBits_spec _ i EmptyString (FormatUint_fuel i Hpos))
      as (c & r & E & Hd & _).
    rewrite E in *. apply isDigit_not_minus in Hd.
    unfold strconv.canonicalInt, strconv.intValue.
    destruct c as [[] [] [] [] [] [] [] []]; try (split; assumption).
    now contradiction Hd.
Qed.

(** ** The lookup tables and the fields of a time *)

Lemma get_beyond (s : string) (n : nat) : (String.length s <= n)%nat -> String.get n s = None.
Proof.
  revert n; induction s as [|c s IH]; intros n H; [reflexivity |].
  destruct n as [|n]; simpl in *; [lia |]. apply IH; lia.
Qed.

(** The table lookups agree with two-digit zero padding on 0..99. *)
Lemma twoDigits_table :
  forallb (λ k, match twoDigits (Z.of_nat k) with
                | Some s => String.eqb s (zeroPad 2 (Z.of_nat k))
                | None => false
                end) (seq 0 100) = true.
Proof. vm_compute. reflexivity. Qed.

Lemma twoDigits_in_range (i : Z) : 0 <= i <= 99 -> twoDigits i = Some (zeroPad 2 i).
Proof.
  intros H. pose proof twoDigits_table as T.
  rewrite forallb_forall in T. specialize (T (Z.to_nat i)).
  rewrite Z2Nat.id in T by lia.
  assert (Hin : In (Z.to_nat i) (seq 0 100)) by (apply in_seq; lia).
  apply T in Hin. destruct (twoDigits i) as [s|]; [| discriminate].
  apply String.eqb_eq in Hin. now subst.
Qed.

(** Outside 0..99 a lookup is out of bounds. *)
Lemma twoDigits_out_of_range (i : Z) : i < 0 \/ 99 < i -> twoDigits i = None.
Proof.
  intros H. unfold twoDigits, GoString.index.
  destruct (Z.ltb_spec i 0) as [Hneg|Hpos]; [reflexivity |].
  rewrite (get_beyond digits10); [reflexivity |].
  change (String.length digits10) with 100%nat. lia.
Qed.

Lemma twoDigits_Some (i : Z) : is_Some (twoDigits i) <-> 0 <= i <= 99.
Proof.
  split.
  - intros [s Hs]. destruct (Z_lt_dec i 0) as [H|H].
    + rewrite twoDigits_out_of_range in Hs by lia. discriminate.
    + destruct (Z_lt_dec 99 i) as [H'|H']; [| lia].
      rewrite twoDigits_out_of_range in Hs by lia. discriminate.
  - intros H. rewrite twoDigits_in_range by exact H. eauto.
Qed.

Lemma zeroPad_S (w : nat) (n : Z) :
  zeroPad (S w) n = zeroPad w (n / 10) ++ String (strconv.digit (n mod 10)) EmptyString.
Proof. reflexivity. Qed.

(** [zeroPad] writes exactly [width] digits, and they read back as the
    number when it has no more digits than that. *)
Lemma decValue_append (s1 s2 : string) :
  strconv.decValue (s1 ++ s2)
  = strconv.decValue s1 * 10 ^ Z.of_nat (String.length s2) + strconv.decValue s2.
Proof.
  induction s1 as [|c s1 IH]; [rewrite append_Empty; simpl; lia |].
  rewrite append_String, !decValue_String, IH, length_append.
  rewrite Nat2Z.inj_add, Z.pow_add_r by lia. ring.
Qed.

Lemma zeroPad_spec (width : nat) (n : Z) :
  String.length (zeroPad width n) = width
  /\ strconv.allDigits (zeroPad width n) = true
  /\ (0 <= n < 10 ^ Z.of_nat width -> strconv.decValue (zeroPad width n) = n).
Proof.
  revert n; induction width as [|w IH]; intros n.
  - repeat split. simpl. lia.
  - rewrite zeroPad_S. destruct (IH (n / 10)) as (Hl & Ha & Hv).
    pose proof (Z.mod_pos_bound n 10 ltac:(lia)) as Hm.
    split; [rewrite length_append, Hl; simpl; lia |].
    split.
    + clear Hv Hl. induction (zeroPad w (n / 10)) as [|c r IHr].
      * rewrite append_Empty, allDigits_String, digit_isDigit by lia. reflexivity.
      * rewrite append_String, !allDigits_String in *.
        apply andb_true_iff in Ha as [Hc Hr]. now rewrite Hc, IHr.
    + intros Hn. rewrite Nat2Z.inj_succ, Z.pow_succ_r in Hn by lia.
      rewrite decValue_append, Hv.
      * rewrite decValue_String, digitVal_digit by lia.
        change (strconv.decValue EmptyString) with 0.
        change (String.length (String (strconv.digit (n mod 10)) EmptyString)) with 1%nat.
        change (String.length EmptyString) with 0%nat.
        pose proof (Z.div_mod n 10 ltac:(lia)).
        change (10 ^ Z.of_nat 1) with 10. change (10 ^ Z.of_nat 0) with 1. lia.
      * split; [apply Z.div_pos; lia | apply Z.div_lt_upper_bound; lia].
Qed.

(** Four digits are two pairs, and six digits three. *)
Lemma zeroPad_4 (n : Z) : zeroPad 4 n = zeroPad 2 (n / 100) ++ zeroPad 2 (n mod 100).
Proof.
  rewrite !zeroPad_S. change (zeroPad 0 _) with EmptyString. rewrite !append_Empty.
  rewrite !append_assoc. rewrite !append_String, !append_Empty.
  replace (n / 10 / 10 / 10 mod 10) with (n / 100 / 10 mod 10)
    by (pose proof (Z.div_div n 10 10); pose proof (Z.div_div n 100 10);
        pose proof (Z.div_div (n / 10) 10 10); Z.to_euclidean_division_equations; lia).
  replace (n / 10 / 10 mod 10) with (n / 100 mod 10)
    by (Z.to_euclidean_division_equations; lia).
  replace (n mod 100 / 10 mod 10) with (n / 10 mod 10)
    by (Z.to_euclidean_division_equations; lia).
  replace (n mod 100 mod 10) with (n mod 10)
    by (Z.to_euclidean_division_equations; lia).
  reflexivity.
Qed.

Lemma zeroPad_6 (n : Z) :
  zeroPad 6 n = zeroPad 2 (n / 10000) ++ zeroPad 2 (n / 100 mod 100) ++ zeroPad 2 (n mod 100).
Proof.
  rewrite !zeroPad_S. change (zeroPad 0 _) with EmptyString. rewrite !append_Empty.
  rewrite !append_assoc. rewrite !append_String, !append_Empty.
  replace (n / 10 / 10 / 10 / 10 / 10 mod 10) with (n / 10000 / 10 mod 10)
    by (Z.to_euclidean_division_equations; lia).
  replace (n / 10 / 10 / 10 / 10 mod 10) with (n / 10000 mod 10)
    by (Z.to_euclidean_division_equations; lia).
  replace (n / 10 / 10 / 10 mod 10) with (n / 100 mod 100 / 10 mod 10)
    by (Z.to_euclidean_division_equations; lia).
  replace (n / 10 / 10 mod 10) with (n / 100 mod 100 mod 10)
    by (Z.to_euclidean_division_equations; lia).
  replace (n mod 100 / 10 mod 10) with (n / 10 mod 10)
    by (Z.to_euclidean_division_equations; lia).
  replace (n mod 100 mod 10) with (n mod 10)
    by (Z.to_euclidean_division_equations; lia).
  reflexivity.
Qed.

Lemma yearDay_yday (d : Z) : 0 <= snd (time.yearDay d) <= 365.
Proof.
  unfold time.yearDay; cbv zeta; simpl snd.
  Z.to_euclidean_division_equations; lia.
Qed.

(** The last day of a cycle is day 365 of a leap year. *)
Lemma yearDay_leap (d : Z) :
  snd (time.yearDay d) = 365 -> time.isLeap (fst (time.yearDay d)) = true.
Proof.
  unfold time.yearDay, time.isLeap; cbv zeta; simpl fst; simpl snd.
  intros H.
  apply andb_true_iff. rewrite orb_true_iff, negb_true_iff, !Z.eqb_eq, Z.eqb_neq.
  Z.to_euclidean_division_equations; lia.
Qed.

(** Every day of a year falls in a month from 1 to 12, on a day from 1 to
    31; day 365 exists in a leap year only and is December 31. *)
Lemma monthDay_table :
  forallb (λ k, forallb (λ leap,
                   let '(m, d) := time.monthDay leap (Z.of_nat k) in
                   (1 <=? m) && (m <=? 12) && (1 <=? d) && (d <=? 31))
                 [true; false]) (seq 0 365) = true
  /\ time.monthDay true 365 = (12, 31).
Proof. split; vm_compute; reflexivity. Qed.

Lemma monthDay_bounds (leap : bool) (yday : Z) :
  0 <= yday <= 365 -> (yday = 365 -> leap = true) ->
  1 <= fst (time.monthDay leap yday) <= 12 /\ 1 <= snd (time.monthDay leap yday) <= 31.
Proof.
  intros H Hleap. destruct monthDay_table as [T T365].
  destruct (Z.eq_dec yday 365) as [->|Hne].
  { rewrite (Hleap eq_refl), T365. simpl. lia. }
  rewrite forallb_forall in T. specialize (T (Z.to_nat yday)).
  rewrite Z2Nat.id in T by lia.
  assert (Hin : In (Z.to_nat yday) (seq 0 365)) by (apply in_seq; lia).
  apply T in Hin. rewrite forallb_forall in Hin.
  specialize (Hin leap ltac:(destruct leap; simpl; auto)).
  destruct (time.monthDay leap yday) as [m d]; simpl.
  repeat (apply andb_true_iff in Hin as [Hin ?]). lia.
Qed.

(** The month and the day of a time are those of a calendar. *)
Lemma date_bounds (t : time.Time) :
  1 <= time.Month t <= 12 /\ 1 <= time.Day t <= 31.
Proof.
  unfold time.Month, time.Day, time.date.
  pose proof (yearDay_yday (time.abs t / 86400)) as Hy.
  pose proof (yearDay_leap (time.abs t / 86400)) as Hl.
  destruct (time.yearDay (time.abs t / 86400)) as [year yday]; simpl in Hy, Hl.
  pose proof (monthDay_bounds (time.isLeap year) yday Hy Hl) as Hm.
  destruct (time.monthDay (time.isLeap year) yday) as [m d]; simpl in *. exact Hm.
Qed.

Lemma clock_bounds (t : time.Time) :
  0 <= time.Hour t <= 23 /\ 0 <= time.Minute t <= 59 /\ 0 <= time.Second t <= 59
  /\ 0 <= time.Nanoseconds t <= 999999999.
Proof.
  unfold time.Hour, time.Minute, time.Second, time.Nanoseconds.
  repeat split; Z.to_euclidean_division_equations; lia.
Qed.

Lemma bind_Some {A B : Type} (x : A) (f : A -> option B) : (Some x ≫= f) = f x.
Proof. reflexivity. Qed.

Lemma bind_None {A B : Type} (f : A -> option B) : (None ≫= f) = None.
Proof. reflexivity. Qed.

(** With a year of four digits every lookup is in bounds and the bytes are
    the rendering of the specification. *)
Lemma encodedTime_in_range (L : time.Location) (t : time.Time) :
  0 <= time.Year (adjusted L t) <= 9999 ->
  encodedTime L t = Some (renderedTime L t).
Proof.
  intros Hy. unfold encodedTime, renderedTime; cbv zeta.
  change (time.Add (time.In t L) (time.Nanosecond * 500)) with (adjusted L t).
  set (v := adjusted L t) in *.
  destruct (date_bounds v) as [Hmo Hd].
  destruct (clock_bounds v) as (Hh & Hmi & Hs & Hn).
  rewrite (Z.quot_div_nonneg (time.Year v) 100), (Z.rem_mod_nonneg (time.Year v) 100) by lia.
  rewrite (Z.quot_div_nonneg (time.Nanoseconds v) 1000) by lia.
  set (micro := time.Nanoseconds v / 1000).
  assert (Hmicro : 0 <= micro <= 999999)
    by (unfold micro; Z.to_euclidean_division_equations; lia).
  rewrite (twoDigits_in_range (time.Year v / 100))
    by (Z.to_euclidean_division_equations; lia).
  rewrite (twoDigits_in_range (time.Year v mod 100))
    by (Z.to_euclidean_division_equations; lia).
  rewrite (twoDigits_in_range (time.Month v)), (twoDigits_in_range (time.Day v)),
    (twoDigits_in_range (time.Hour v)), (twoDigits_in_range (time.Minute v)),
    (twoDigits_in_range (time.Second v)) by lia.
  rewrite !bind_Some.
  rewrite zeroPad_4, !append_assoc.
  destruct (micro =? 0); simpl negb; cbv iota.
  - now rewrite append_nil_r.
  - rewrite (Z.quot_div_nonneg micro 10000), (Z.quot_div_nonneg micro 100),
      (Z.rem_mod_nonneg micro 100) by lia.
    rewrite (Z.rem_mod_nonneg (micro / 100) 100) by (try apply Z.div_pos; lia).
    rewrite (twoDigits_in_range (micro / 10000))
      by (Z.to_euclidean_division_equations; lia).
    rewrite (twoDigits_in_range (micro / 100 mod 100))
      by (Z.to_euclidean_division_equations; lia).
    rewrite (twoDigits_in_range (micro mod 100))
      by (Z.to_euclidean_division_equations; lia).
    rewrite !bind_Some, zeroPad_6, !append_assoc. reflexivity.
Qed.

(** With any other year a lookup for the year is out of bounds. *)
Lemma encodedTime_out_of_range (L : time.Location) (t : time.Time) :
  time.Year (adjusted L t) < 0 \/ 9999 < time.Year (adjusted L t) ->
  encodedTime L t = None.
Proof.
  intros Hy. unfold encodedTime; cbv zeta.
  change (time.Add (time.In t L) (time.Nanosecond * 500)) with (adjusted L t).
  set (v := adjusted L t) in *.
  destruct (Z_le_dec 0 (Z.quot (time.Year v) 100)) as [H100|H100];
    [destruct (Z_le_dec (Z.quot (time.Year v) 100) 99) as [H99|H99] |].
  - rewrite (twoDigits_in_range (Z.quot (time.Year v) 100)) by lia.
    rewrite bind_Some.
    rewrite (twoDigits_out_of_range (Z.rem (time.Year v) 100)); [reflexivity |].
    Z.to_euclidean_division_equations; lia.
  - rewrite (twoDigits_out_of_range (Z.quot (time.Year v) 100)) by lia. reflexivity.
  - rewrite (twoDigits_out_of_range (Z.quot (time.Year v) 100)) by lia. reflexivity.
Qed.

(** ** encodedLoadData *)

(** The cases of the driver's test of [encodedLoadData] (the float case
    apart, which goes through [strconv.FormatFloat]). *)
Example encodedLoadData_tests :
  encodedLoadData noFloat time.UTC (VString "test") = Some "test"
  /\ encodedLoadData noFloat time.UTC (VInt64 42) = Some "42"
  /\ encodedLoadData noFloat time.UTC (VUint64 42) = Some "42"
  /\ encodedLoadData noFloat time.UTC (VBool true) = Some "1"
  /\ encodedLoadData noFloat time.UTC (VBool false) = Some "0"
  /\ encodedLoadData noFloat time.UTC VNil = Some (String backslash "N")
  /\ encodedLoadData noFloat time.UTC (VTime {| time.instant := 0; time.location := time.UTC |})
     = Some "0000-00-00"
  /\ encodedLoadData noFloat time.UTC (VTime testTime) = Some "2014-12-31 12:13:24"
  /\ encodedLoadData noFloat time.UTC (VBytes None) = Some (String backslash "N")
  /\ encodedLoadData noFloat time.UTC (VBytes (Some "test")) = Some "test".
Proof. repeat split; vm_compute; reflexivity. Qed.

(** Rounding at the microsecond: 499 nanoseconds below a microsecond round
    down, 500 round up, also across the end of the year; another timezone
    moves the clock. *)
Example encodedLoadData_rounding :
  encodedLoadData noFloat time.UTC (VTime (time.DateUTC 2014 12 31 12 13 24 123456499))
  = Some "2014-12-31 12:13:24.123456"
  /\ encodedLoadData noFloat time.UTC (VTime (time.DateUTC 2014 12 31 12 13 24 123456500))
     = Some "2014-12-31 12:13:24.123457"
  /\ encodedLoadData noFloat time.UTC (VTime (time.DateUTC 2014 12 31 23 59 59 999999500))
     = Some "2015-01-01 00:00:00"
  /\ encodedLoadData noFloat (time.FixedZone (9 * 3600))
       (VTime (time.DateUTC 2014 12 31 23 59 59 1500))
     = Some "2015-01-01 08:59:59.000002".
Proof. repeat split; vm_compute; reflexivity. Qed.

(** The claim of C2 fails for a timestamp of year 10000: it is not the
    zero value, and encoding it panics instead of rendering a four-digit
    year. *)
Lemma encodedLoadData_year10000_panics :
  time.IsZero year10000 = false
  /\ time.Year (adjusted time.UTC year10000) = 10000
  /\ encodedLoadData noFloat time.UTC (VTime year10000) = None.
Proof. repeat split; vm_compute; reflexivity. Qed.

(** C2, as the code has it.  The zero value of a timestamp encodes to
    "0000-00-00".  Any other timestamp is converted to the configured
    timezone and moved on by 500 nanoseconds, and when its year is then
    within 0..9999 it encodes to "YYYY-MM-DD HH:MM:SS" with a four-digit
    year and two-digit month, day, hour, minute and second, all padded with
    zeros, followed by a point and the six-digit microseconds exactly when
    the microseconds (the nanoseconds divided by 1000, fraction dropped)
    are not zero. *)
Theorem encodedLoadData_time
    (FormatFloat : float -> ascii -> Z -> Z -> string) (L : time.Location) (t : time.Time) :
  time.IsZero t = true \/ 0 <= time.Year (adjusted L t) <= 9999 ->
  encodedLoadData FormatFloat L (VTime t)
  = Some (if time.IsZero t then "0000-00-00" else renderedTime L t).
Proof.
  intros H. unfold encodedLoadData.
  destruct (time.IsZero t); [reflexivity |].
  destruct H as [H|H]; [discriminate |].
  now apply encodedTime_in_range.
Qed.

Lemma encodedLoadData_time_witness :
  encodedLoadData noFloat time.UTC (VTime testTime)
  = Some (if time.IsZero testTime then "0000-00-00" else renderedTime time.UTC testTime).
Proof.
  apply (encodedLoadData_time noFloat time.UTC testTime).
  right. vm_compute. split; discriminate.
Defined.

(** C9. For a timestamp that is not the zero value, the lookups of
    [year / 100] and [year % 100] in the two-digit tables are both in
    bounds exactly when the year of the converted and offset time is within
    0..9999; with a negative year or a year of 10000 or more the encoder
    panics, and with a year of four digits it returns. *)
Theorem encodedLoadData_year_bounds
    (FormatFloat : float -> ascii -> Z -> Z -> string) (L : time.Location) (t : time.Time) :
  time.IsZero t = false ->
  let year := time.Year (adjusted L t) in
  (is_Some (twoDigits (Z.quot year 100)) /\ is_Some (twoDigits (Z.rem year 100))
   <-> 0 <= year <= 9999)
  /\ (year < 0 \/ 9999 < year -> encodedLoadData FormatFloat L (VTime t) = None)
  /\ (0 <= year <= 9999 -> is_Some (encodedLoadData FormatFloat L (VTime t))).
Proof.
  intros Hz year. unfold encodedLoadData. rewrite Hz.
  split; [| split].
  - rewrite !twoDigits_Some. subst year.
    split; intros H; Z.to_euclidean_division_equations; lia.
  - apply encodedTime_out_of_range.
  - intros H. rewrite encodedTime_in_range by exact H. eauto.
Qed.

Lemma encodedLoadData_year_bounds_witness :
  encodedLoadData noFloat time.UTC (VTime yearMinus1) = None.
Proof.
  apply (encodedLoadData_year_bounds noFloat time.UTC yearMinus1).
  - reflexivity.
  - left. vm_compute. reflexivity.
Defined.

(** The claim of C4 fails for a timestamp, one of the supported variants:
    encoding a day of the year before year 0 panics. *)
Lemma encodedLoadData_not_total :
  time.IsZero yearMinus1 = false
  /\ time.Year (adjusted time.UTC yearMinus1) = -1
  /\ encodedLoadData noFloat time.UTC (VTime yearMinus1) = None.
Proof. repeat split; vm_compute; reflexivity. Qed.

(** C4, as the code has it.  [encodedLoadData] is a function, and it
    returns for every value but a timestamp whose year is outside 0..9999.
    The nil interface and the nil byte slice encode to backslash-N, while
    an empty slice that is not nil encodes to the empty string; [true] to
    "1" and [false] to "0"; a signed or unsigned integer to its canonical
    decimal text; a float to what [strconv.FormatFloat] gives with format
    'g', precision -1 and bit size 64. *)
Theorem encodedLoadData_scalars
    (FormatFloat : float -> ascii -> Z -> Z -> string) (L : time.Location) (x : Value) :
  encodable L x ->
  is_Some (encodedLoadData FormatFloat L x)
  /\ (forall r1 r2, encodedLoadData FormatFloat L x = r1 ->
                    encodedLoadData FormatFloat L x = r2 -> r1 = r2)
  /\ encodedLoadData FormatFloat L VNil = Some (String backslash "N")
  /\ encodedLoadData FormatFloat L (VBytes None) = Some (String backslash "N")
  /\ encodedLoadData FormatFloat L (VBytes (Some EmptyString)) = Some EmptyString
  /\ encodedLoadData FormatFloat L (VBool true) = Some "1"
  /\ encodedLoadData FormatFloat L (VBool false) = Some "0"
  /\ (forall v : Z,
        encodedLoadData FormatFloat L (VInt64 v) = Some (strconv.FormatInt v)
        /\ strconv.canonicalInt (strconv.FormatInt v) = true
        /\ strconv.intValue (strconv.FormatInt v) = v)
  /\ (forall v : N,
        encodedLoadData FormatFloat L (VUint64 v) = Some (strconv.FormatUint (Z.of_N v))
        /\ strconv.canonicalUint (strconv.FormatUint (Z.of_N v)) = true
        /\ strconv.decValue (strconv.FormatUint (Z.of_N v)) = Z.of_N v)
  /\ (forall v : float,
        encodedLoadData FormatFloat L (VFloat64 v) = Some (FormatFloat v "g"%char (-1) 64)).
Proof.
  intros Hx. split.
  { destruct x as [v|v|v|[]|t|[b|]|v| |]; simpl; eauto.
    simpl in Hx. destruct (time.IsZero t) eqn:Hz; [eauto |].
    destruct Hx as [Hx|Hx]; [discriminate |].
    rewrite encodedTime_in_range by exact Hx. eauto. }
  split; [intros r1 r2 <- <-; reflexivity |].
  repeat (split; [reflexivity |]).
  split; [| split].
  - intros v. split; [reflexivity |]. apply FormatInt_canonical.
  - intros v. split; [reflexivity |].
    destruct (FormatUint_canonical (Z.of_N v) (N2Z.is_nonneg v)) as (Hc & Hv & _).
    now split.
  - reflexivity.
Qed.

Lemma encodedLoadData_scalars_witness :
  is_Some (encodedLoadData noFloat time.UTC (VTime testTime)).
Proof.
  apply (encodedLoadData_scalars noFloat time.UTC (VTime testTime)).
  right. vm_compute. split; discriminate.
Defined.

(** * Further properties *)

(** ** escapedText read back *)

Lemma unescapeText_escape (d : ascii) (r : string) :
  unescapeText (String backslash (String d r)) = String (unescapeByte d) (unescapeText r).
Proof. reflexivity. Qed.

Lemma unescapeText_plain (c : ascii) (r : string) :
  Ascii.eqb c backslash = false -> unescapeText (String c r) = String c (unescapeText r).
Proof. intros H. simpl. now rewrite H. Qed.

Lemma escapeOf_cases (c : ascii) :
  (c = backslash /\ escapeOf c = String backslash (String backslash EmptyString))
  \/ (c = LF /\ escapeOf c = String backslash "n")
  \/ (c = CR /\ escapeOf c = String backslash "r")
  \/ (c = TAB /\ escapeOf c = String backslash "t")
  \/ (escapeNeeded c = false /\ escapeOf c = String c EmptyString).
Proof.
  unfold escapeOf, escapeNeeded.
  destruct (Ascii.eqb_spec c backslash) as [->|H1]; [left; split; reflexivity |].
  destruct (Ascii.eqb_spec c LF) as [->|H2]; [right; left; split; reflexivity |].
  destruct (Ascii.eqb_spec c CR) as [->|H3]; [right; right; left; split; reflexivity |].
  destruct (Ascii.eqb_spec c TAB) as [->|H4]; [right; right; right; left; split; reflexivity |].
  right; right; right; right. split; reflexivity.
Qed.

Lemma escapeNeeded_backslash (c : ascii) :
  escapeNeeded c = false -> Ascii.eqb c backslash = false.
Proof.
  unfold escapeNeeded. intros H.
  apply orb_false_elim in H as [H _]. apply orb_false_elim in H as [H _].
  now apply orb_false_elim in H as [H _].
Qed.

Lemma unescapeText_escapeRowText (text : string) :
  unescapeText (escapeRowText text) = text.
Proof.
  induction text as [|c rest IH]; [reflexivity |].
  change (escapeRowText (String c rest)) with (escapeOf c ++ escapeRowText rest).
  destruct (escapeOf_cases c) as [[-> E]|[[-> E]|[[-> E]|[[-> E]|[Hc E]]]]]; rewrite E;
    rewrite ?append_String, ?append_Empty.
  - rewrite unescapeText_escape, IH. reflexivity.
  - rewrite unescapeText_escape, IH. reflexivity.
  - rewrite unescapeText_escape, IH. reflexivity.
  - rewrite unescapeText_escape, IH. reflexivity.
  - rewrite unescapeText_plain, IH by now apply escapeNeeded_backslash. reflexivity.
Qed.

(** X1. The escaped form of a text can be read back: undoing the
    two-byte escapes of [escapedText text] gives [text] again, so two
    different texts never have the same escaped form. *)
Theorem escapedText_decodable (text : string) :
  unescapeText (escapedText text) = text
  /\ (forall other : string, escapedText other = escapedText text -> other = text).
Proof.
  split.
  - rewrite escapedText_escapeRowText. apply unescapeText_escapeRowText.
  - intros other H. apply (f_equal unescapeText) in H.
    rewrite !escapedText_escapeRowText, !unescapeText_escapeRowText in H. exact H.
Qed.

Lemma rawFree_String (c : ascii) (s : string) :
  rawFree (String c s) = negb (isDelimiter c) && rawFree s.
Proof. reflexivity. Qed.

Lemma rawFree_append (a b : string) : rawFree (a ++ b) = rawFree a && rawFree b.
Proof.
  induction a as [|c a IH]; [reflexivity |].
  rewrite append_String, !rawFree_String, IH. now rewrite andb_assoc.
Qed.

Lemma countByte_append (x : ascii) (a b : string) :
  countByte x (a ++ b) = (countByte x a + countByte x b)%nat.
Proof.
  induction a as [|c a IH]; [reflexivity |].
  rewrite append_String. simpl. rewrite IH. lia.
Qed.

Lemma rawFree_countByte (s : string) (x : ascii) :
  isDelimiter x = true -> rawFree s = true -> countByte x s = O.
Proof.
  intros Hx. induction s as [|c s IH]; [reflexivity |].
  rewrite rawFree_String. intros H. apply andb_true_iff in H as [Hc Hs].
  simpl. rewrite (IH Hs).
  destruct (Ascii.eqb_spec c x) as [->|]; [| reflexivity].
  rewrite Hx in Hc. discriminate.
Qed.

Lemma escapeNeeded_delimiter (c : ascii) :
  escapeNeeded c = false -> isDelimiter c = false.
Proof.
  unfold escapeNeeded, isDelimiter. intros H.
  apply orb_false_elim in H as [H H3]. apply orb_false_elim in H as [H H2].
  apply orb_false_elim in H as [_ H1]. now rewrite H1, H2, H3.
Qed.

Lemma escapeOf_rawFree (c : ascii) :
  rawFree (escapeOf c) = true
  /\ String.length (escapeOf c) = ((if escapeNeeded c then 1 else 0) + 1)%nat.
Proof.
  destruct (escapeOf_cases c) as [[-> E]|[[-> E]|[[-> E]|[[-> E]|[Hc E]]]]]; rewrite E;
    try (split; reflexivity).
  rewrite Hc, rawFree_String, (escapeNeeded_delimiter _ Hc). split; reflexivity.
Qed.

Lemma countEscaped_le (s : string) : (countEscaped s <= String.length s)%nat.
Proof. induction s as [|c s IH]; simpl; [lia |]. destruct (escapeNeeded c); lia. Qed.

Lemma escapeRowText_rawFree (text : string) : rawFree (escapeRowText text) = true.
Proof.
  induction text as [|c rest IH]; [reflexivity |].
  change (escapeRowText (String c rest)) with (escapeOf c ++ escapeRowText rest).
  rewrite rawFree_append, IH. now destruct (escapeOf_rawFree c) as [-> _].
Qed.

Lemma escapeRowText_length (text : string) :
  String.length (escapeRowText text) = (String.length text + countEscaped text)%nat.
Proof.
  induction text as [|c rest IH]; [reflexivity |].
  change (escapeRowText (String c rest)) with (escapeOf c ++ escapeRowText rest).
  rewrite length_append, IH. destruct (escapeOf_rawFree c) as [_ ->]. simpl. lia.
Qed.

(** X2. The escaped form of a text holds no raw tab, newline or carriage
    return, whatever the text; it is longer than the text by one byte for
    each byte that needed an escape, hence between once and twice as
    long. *)
Theorem escapedText_rawFree (text : string) :
  rawFree (escapedText text) = true
  /\ countByte TAB (escapedText text) = O
  /\ countByte LF (escapedText text) = O
  /\ countByte CR (escapedText text) = O
  /\ String.length (escapedText text) = (String.length text + countEscaped text)%nat
  /\ (String.length text <= String.length (escapedText text) <= 2 * String.length text)%nat.
Proof.
  rewrite escapedText_escapeRowText.
  pose proof (escapeRowText_rawFree text) as Hraw.
  split; [exact Hraw |].
  repeat (split; [apply rawFree_countByte; [reflexivity | exact Hraw] |]).
  split; [apply escapeRowText_length |].
  rewrite escapeRowText_length. pose proof (countEscaped_le text). lia.
Qed.

(** ** The encoded values and the delimiters *)

Lemma isDigit_not_delimiter (c : ascii) : strconv.isDigit c = true -> isDelimiter c = false.
Proof.
  intros H. unfold isDelimiter.
  destruct (Ascii.eqb_spec c TAB) as [->|_]; [discriminate |].
  destruct (Ascii.eqb_spec c LF) as [->|_]; [discriminate |].
  destruct (Ascii.eqb_spec c CR) as [->|_]; [discriminate | reflexivity].
Qed.

Lemma allDigits_rawFree (s : string) : strconv.allDigits s = true -> rawFree s = true.
Proof.
  induction s as [|c s IH]; [reflexivity |].
  rewrite allDigits_String, rawFree_String. intros H.
  apply andb_true_iff in H as [Hc Hs]. now rewrite (isDigit_not_delimiter _ Hc), IH.
Qed.

Lemma FormatUint_rawFree (u : Z) : 0 <= u -> rawFree (strconv.FormatUint u) = true.
Proof.
  intros Hu. unfold strconv.FormatUint.
  destruct (formatBits_spec _ u EmptyString (FormatUint_fuel u Hu))
    as (c & r & -> & Hc & Hall & _).
  rewrite rawFree_String, (isDigit_not_delimiter _ Hc).
  now rewrite (allDigits_rawFree r (Hall eq_refl)).
Qed.

Lemma FormatInt_rawFree (i : Z) : rawFree (strconv.FormatInt i) = true.
Proof.
  unfold strconv.FormatInt. destruct (Z.ltb_spec i 0).
  - rewrite rawFree_String, FormatUint_rawFree by lia. reflexivity.
  - now apply FormatUint_rawFree.
Qed.

Lemma zeroPad_rawFree (w : nat) (n : Z) : rawFree (zeroPad w n) = true.
Proof. apply allDigits_rawFree. now destruct (zeroPad_spec w n) as (_ & H & _). Qed.

Lemma zeroPad_length (w : nat) (n : Z) : String.length (zeroPad w n) = w.
Proof. now destruct (zeroPad_spec w n) as (H & _). Qed.

(** A rendered timestamp holds no delimiter and has 19 bytes, or 26 with
    the microseconds. *)
Lemma renderedTime_shape (L : time.Location) (t : time.Time) :
  rawFree (renderedTime L t) = true
  /\ String.length (renderedTime L t)
     = if time.Nanoseconds (adjusted L t) / 1000 =? 0 then 19%nat else 26%nat.
Proof.
  unfold renderedTime; cbv zeta.
  destruct (time.Nanoseconds (adjusted L t) / 1000 =? 0).
  - split.
    + rewrite !rawFree_append, !zeroPad_rawFree. reflexivity.
    + rewrite !length_append, !zeroPad_length. reflexivity.
  - split.
    + rewrite !rawFree_append, !zeroPad_rawFree. reflexivity.
    + rewrite !length_append, !zeroPad_length. reflexivity.
Qed.

(** What [encodedTime] returns, when it returns. *)
Lemma encodedTime_Some (L : time.Location) (t : time.Time) (s : string) :
  encodedTime L t = Some s -> s = renderedTime L t.
Proof.
  intros H.
  destruct (Z_lt_dec (time.Year (adjusted L t)) 0) as [Hlo|Hlo].
  { rewrite encodedTime_out_of_range in H by lia. discriminate. }
  destruct (Z_lt_dec 9999 (time.Year (adjusted L t))) as [Hhi|Hhi].
  { rewrite encodedTime_out_of_range in H by lia. discriminate. }
  rewrite encodedTime_in_range in H by lia. congruence.
Qed.

Lemma encodedLoadData_rawFree
    (FormatFloat : float -> ascii -> Z -> Z -> string) (L : time.Location)
    (x : Value) (s : string) :
  (forall v, rawFree (FormatFloat v "g"%char (-1) 64) = true) ->
  encodedLoadData FormatFloat L x = Some s -> rawFree s = true.
Proof.
  intros HF H. destruct x as [v|v|v|[]|t|[b|]|v| |]; simpl in H;
    try (injection H as <-).
  - apply FormatInt_rawFree.
  - apply FormatUint_rawFree, N2Z.is_nonneg.
  - apply HF.
  - reflexivity.
  - reflexivity.
  - destruct (time.IsZero t); [injection H as <-; reflexivity |].
    apply encodedTime_Some in H as ->. apply renderedTime_shape.
  - rewrite escapedText_escapeRowText. apply escapeRowText_rawFree.
  - reflexivity.
  - rewrite escapedText_escapeRowText. apply escapeRowText_rawFree.
  - reflexivity.
  - reflexivity.
Qed.

Lemma encodedColumns_count
    (FormatFloat : float -> ascii -> Z -> Z -> string) (L : time.Location) :
  (forall v, rawFree (FormatFloat v "g"%char (-1) 64) = true) ->
  forall (args : list Value) (n : nat) (row : string),
    encodedColumns FormatFloat L n args = Some row ->
    countByte TAB row = (if (0 <? n)%nat then length args else pred (length args))
    /\ countByte LF row = O /\ countByte CR row = O.
Proof.
  intros HF args. induction args as [|column rest IH]; intros n row H.
  - injection H as <-. destruct (0 <? n)%nat; repeat split.
  - simpl in H.
    destruct (encodedLoadData FormatFloat L column) as [s|] eqn:Hs; [| discriminate].
    rewrite bind_Some in H.
    destruct (encodedColumns FormatFloat L (S n) rest) as [r|] eqn:Hr; [| discriminate].
    rewrite bind_Some in H. injection H as <-.
    destruct (IH (S n) r Hr) as (Ht & Hl & Hc).
    pose proof (encodedLoadData_rawFree _ _ _ _ HF Hs) as Hraw.
    rewrite !countByte_append, Ht, Hl, Hc.
    rewrite !(rawFree_countByte s) by (reflexivity || exact Hraw).
    change (0 <? S n)%nat with true. cbv iota.
    destruct (0 <? n)%nat; simpl; repeat split; lia.
Qed.

(** X3. When the text of a float holds no delimiter, the columns of a row
    are written with exactly one tab between neighbours and no newline or
    carriage return: a row of [k] values has [k - 1] raw tabs, so the
    receiver splits it into the [k] fields that were given. *)
Theorem encodedColumns_delimiters
    (FormatFloat : float -> ascii -> Z -> Z -> string) (L : time.Location)
    (args : list Value) (row : string) :
  (forall v, rawFree (FormatFloat v "g"%char (-1) 64) = true) ->
  encodedColumns FormatFloat L 0 args = Some row ->
  countByte TAB row = pred (length args)
  /\ countByte LF row = O
  /\ countByte CR row = O.
Proof.
  intros HF H.
  exact (encodedColumns_count FormatFloat L HF args 0%nat row H).
Qed.

Lemma encodedColumns_delimiters_witness :
  countByte TAB ("1" ++ String TAB ("a" ++ String backslash "tb") ++
                 String TAB (String backslash "N")) = 2%nat.
Proof.
  apply (encodedColumns_delimiters noFloat time.UTC
           [VInt64 1; VString ("a" ++ String TAB "b"); VNil]).
  - intros v. reflexivity.
  - vm_compute. reflexivity.
Defined.

(** ** The NULL marker and the width of a timestamp *)

Lemma eqb_by (f : string -> bool) (a b : string) :
  f a = true -> f b = false -> String.eqb a b = false.
Proof.
  intros Ha Hb. destruct (String.eqb_spec a b) as [->|]; [congruence | reflexivity].
Qed.

Lemma eqb_by_length (a b : string) :
  String.length a <> String.length b -> String.eqb a b = false.
Proof.
  intros H. destruct (String.eqb_spec a b) as [->|]; [contradiction | reflexivity].
Qed.

Lemma escapedText_not_null (text : string) : String.eqb (escapedText text) nullMarker = false.
Proof.
  destruct (String.eqb_spec (escapedText text) nullMarker) as [E|]; [| reflexivity].
  exfalso. pose proof E as E'. apply (f_equal unescapeText) in E'.
  rewrite escapedText_escapeRowText, unescapeText_escapeRowText in E'.
  subst text. vm_compute in E. discriminate.
Qed.

(** X4. The two bytes backslash-N stand for NULL and for nothing else: of
    all values only the nil interface and the nil byte slice encode to
    them (a float does only if its text is the marker).  A text or a byte
    slice never does, since its backslashes are doubled; a number, a
    boolean and a timestamp never do. *)
Theorem encodedLoadData_null_marker
    (FormatFloat : float -> ascii -> Z -> Z -> string) (L : time.Location) (x : Value) :
  isNullMarker (encodedLoadData FormatFloat L x)
  = match x with
    | VNil | VBytes None => true
    | VFloat64 v => String.eqb (FormatFloat v "g"%char (-1) 64) nullMarker
    | _ => false
    end.
Proof.
  destruct x as [v|v|v|[]|t|[b|]|v| |]; simpl; try reflexivity.
  - apply (eqb_by strconv.canonicalInt); [apply FormatInt_canonical | reflexivity].
  - apply (eqb_by strconv.canonicalUint); [| reflexivity].
    apply FormatUint_canonical, N2Z.is_nonneg.
  - destruct (time.IsZero t); [reflexivity |].
    destruct (encodedTime L t) as [s|] eqn:H; [| reflexivity].
    apply encodedTime_Some in H as ->. unfold isNullMarker.
    apply eqb_by_length. destruct (renderedTime_shape L t) as [_ ->].
    destruct (_ =? 0); discriminate.
  - apply escapedText_not_null.
  - apply escapedText_not_null.
Qed.

(** X5. An encoded timestamp has a fixed width: 10 bytes for the zero
    value, 19 bytes without microseconds and 26 bytes with them. *)
Theorem encodedLoadData_time_width
    (FormatFloat : float -> ascii -> Z -> Z -> string) (L : time.Location)
    (t : time.Time) (s : string) :
  encodedLoadData FormatFloat L (VTime t) = Some s ->
  String.length s
  = if time.IsZero t then 10%nat
    else if time.Nanoseconds (adjusted L t) / 1000 =? 0 then 19%nat else 26%nat.
Proof.
  simpl. destruct (time.IsZero t); [intros [= <-]; reflexivity |].
  intros H. apply encodedTime_Some in H as ->. apply renderedTime_shape.
Qed.

Lemma encodedLoadData_time_width_witness :
  String.length "2014-12-31 12:13:24"
  = if time.IsZero testTime then 10%nat
    else if time.Nanoseconds (adjusted time.UTC testTime) / 1000 =? 0 then 19%nat else 26%nat.
Proof.
  apply (encodedLoadData_time_width noFloat time.UTC testTime). vm_compute. reflexivity.
Defined.

(** ** Rounding to the microsecond *)

Lemma adjusted_abs (L : time.Location) (t : time.Time) :
  time.abs (adjusted L t)
  = (instant_rounded t / 1000000) + time.offsetAt L (instant_rounded t / 1000000).
Proof.
  unfold time.abs, adjusted, time.Add, time.In, instant_rounded; simpl.
  replace ((time.instant t + 500) / 1000000000) with ((time.instant t + 500) / 1000 / 1000000)
    by (rewrite Z.div_div by lia; reflexivity).
  reflexivity.
Qed.

Lemma adjusted_micro (L : time.Location) (t : time.Time) :
  time.Nanoseconds (adjusted L t) / 1000 = instant_rounded t mod 1000000.
Proof.
  unfold time.Nanoseconds, adjusted, time.Add, time.In, instant_rounded; simpl.
  Z.to_euclidean_division_equations; lia.
Qed.

(** The bytes of [encodedTime] depend on the clock of the adjusted time
    and on its microseconds only. *)
Lemma encodedTime_ext (L : time.Location) (t1 t2 : time.Time) :
  time.abs (adjusted L t1) = time.abs (adjusted L t2) ->
  time.Nanoseconds (adjusted L t1) / 1000 = time.Nanoseconds (adjusted L t2) / 1000 ->
  encodedTime L t1 = encodedTime L t2.
Proof.
  intros Ha Hn. unfold encodedTime; cbv zeta.
  change (time.Add (time.In t1 L) (time.Nanosecond * 500)) with (adjusted L t1).
  change (time.Add (time.In t2 L) (time.Nanosecond * 500)) with (adjusted L t2).
  destruct (clock_bounds (adjusted L t1)) as (_ & _ & _ & Hn1).
  destruct (clock_bounds (adjusted L t2)) as (_ & _ & _ & Hn2).
  rewrite (Z.quot_div_nonneg (time.Nanoseconds (adjusted L t1)) 1000) by lia.
  rewrite (Z.quot_div_nonneg (time.Nanoseconds (adjusted L t2)) 1000) by lia.
  unfold time.Year, time.Month, time.Day, time.date, time.Hour, time.Minute, time.Second.
  rewrite Ha, Hn. reflexivity.
Qed.

(** X6. The encoding of a timestamp that is not the zero value depends on
    its instant only through the microsecond it rounds to, half a
    microsecond rounding up: two instants with the same
    [(nanoseconds + 500) / 1000] encode alike whatever locations they came
    with, and the microseconds printed are that quotient modulo one
    million. *)
Theorem encodedLoadData_rounds_half_up
    (FormatFloat : float -> ascii -> Z -> Z -> string) (L : time.Location)
    (t1 t2 : time.Time) :
  time.IsZero t1 = false -> time.IsZero t2 = false ->
  instant_rounded t1 = instant_rounded t2 ->
  encodedLoadData FormatFloat L (VTime t1) = encodedLoadData FormatFloat L (VTime t2)
  /\ time.Nanoseconds (adjusted L t1) / 1000 = instant_rounded t1 mod 1000000.
Proof.
  intros Hz1 Hz2 H. split; [| apply adjusted_micro].
  simpl. rewrite Hz1, Hz2. apply encodedTime_ext.
  - now rewrite !adjusted_abs, H.
  - now rewrite !adjusted_micro, H.
Qed.

Lemma encodedLoadData_rounds_half_up_witness :
  encodedLoadData noFloat time.UTC (VTime (time.DateUTC 2014 12 31 12 13 24 123456499))
  = encodedLoadData noFloat time.UTC (VTime (time.DateUTC 2014 12 31 12 13 24 123455500)).
Proof.
  apply (encodedLoadData_rounds_half_up noFloat time.UTC
           (time.DateUTC 2014 12 31 12 13 24 123456499)
           (time.DateUTC 2014 12 31 12 13 24 123455500));
    vm_compute; reflexivity.
Defined.

(** ** The row buffer, row by row *)

(** What [loadDataWrite] does with a row of at least one column. *)
Lemma loadDataWrite_step
    (FormatFloat : float -> ascii -> Z -> Z -> string) (env : Env)
    (args : list Value) (s : State) (r : option error) (s' : State) :
  args <> [] ->
  loadDataWrite FormatFloat env args s = Some (r, s') ->
  exists row,
    encodedColumns FormatFloat (Loc (cfg (conn s))) 0 args = Some row
    /\ (let buf := loadData (conn s) ++ row ++ String LF EmptyString in
        let w := writePacketResult env (writes s) in
        if Z.of_nat (String.length buf) >? maxLoadDataSize (conn s)
        then trace s' = (trace s ++ [EvWritePacket buf (ErrWritePacket <$> w)])%list
             /\ r = (ErrWritePacket <$> w)
             /\ loadData (conn s') = match w with
                                     | None => header
                                     | Some _ => buf
                                     end
        else trace s' = trace s /\ r = None /\ loadData (conn s') = buf)
    /\ inLoadData (conn s') = inLoadData (conn s)
    /\ maxLoadDataSize (conn s') = maxLoadDataSize (conn s).
Proof.
  intros Hargs H. unfold loadDataWrite in H.
  destruct args as [|a args']; [contradiction |].
  destruct (encodedColumns FormatFloat (Loc (cfg (conn s))) 0 (a :: args')) as [row|] eqn:Hrow;
    [| discriminate].
  rewrite bind_Some in H. exists row. split; [reflexivity |].
  unfold loadDataWritePacket in H; unfold_M; simpl in H. cbv zeta.
  destruct (Z.of_nat (String.length (loadData (conn s) ++ row ++ String LF EmptyString))
            >? maxLoadDataSize (conn s)).
  - destruct (writePacketResult env (writes s)) as [e|]; simpl in H;
      injection H as <- <-; simpl; repeat split.
  - injection H as <- <-; simpl; repeat split.
Qed.



(** The buffer after [loadDataTerminate]. *)
Lemma loadDataTerminate_buffer_of (env : Env) (s : State) :
  loadData (conn (snd (loadDataTerminate env s)))
  = match writePacketResult env (writes s) with
    | Some _ => loadData (conn s)
    | None => EmptyString
    end.
Proof.
  unfold loadDataTerminate, loadDataTerminateBody, loadDataWritePacket. unfold_M; simpl.
  destruct (writePacketResult env (writes s)); simpl; [reflexivity |].
  destruct (writePacketResult env (S (writes s))); simpl; reflexivity.
Qed.


(** ** The packets of a request *)

Lemma length_zero_empty (b : string) : (0 <? String.length b)%nat = false -> b = EmptyString.
Proof. destruct b; [reflexivity | discriminate]. Qed.

Lemma payloads_app (a b : list event) : payloads (a ++ b) = payloads a ++ payloads b.
Proof.
  induction a as [|e a IH]; [reflexivity |].
  destruct e; simpl; rewrite ?IH, ?append_assoc; reflexivity.
Qed.

Lemma drop_header (b : string) : GoString.drop 4 (header ++ b) = b.
Proof. reflexivity. Qed.

(** The events of the read loop: reads and data packets only; every data
    packet is the header and the bytes of one answer of the reader; and
    when no write fails, the loop ends by itself and the packets carry the
    bytes of the answers it consumed, in order and complete. *)
Lemma readLoop_packets (env : Env) (answers : list ReadResult) (s : State) :
  exists evs,
    trace (snd (readLoop env answers s)) = (trace s ++ evs)%list
    /\ Forall (λ e, isTransfer e = true) evs
    /\ (forall data res, In (EvWritePacket data res) evs ->
          exists a, In a answers /\ data = header ++ readBytes a
                    /\ (0 < String.length (readBytes a))%nat)
    /\ ((forall n, writePacketResult env n = None) ->
          payloads evs = allBytes (upToError answers)
          /\ exists err, fst (readLoop env answers s) = Ended err).
Proof.
  revert s; induction answers as [|a rest IH]; intros s.
  - simpl. unfold_M; simpl. exists [EvRead 0]. repeat split; eauto.
    intros data res [H|[]]; discriminate.
  - simpl. unfold_M.
    destruct (0 <? String.length (readBytes a))%nat eqn:Hn; simpl.
    + pose proof Hn as Hpos. apply Nat.ltb_lt in Hpos.
      destruct (writePacketResult env (writes s)) as [e|] eqn:Hw; simpl.
      * exists [EvRead (String.length (readBytes a));
                EvWritePacket (header ++ readBytes a) (Some (ErrWritePacket e))].
        rewrite <- app_assoc. split; [reflexivity |]. split; [repeat constructor |].
        split.
        -- intros data res [H|[H|[]]]; [discriminate |]. injection H as <- <-.
           exists a. repeat split; auto using in_eq.
        -- intros Hall. rewrite Hall in Hw. discriminate.
      * destruct (readErr a) as [re|] eqn:Hre.
        -- simpl. exists [EvRead (String.length (readBytes a));
                          EvWritePacket (header ++ readBytes a) None].
           rewrite <- app_assoc. split; [reflexivity |]. split; [repeat constructor |].
           split.
           ++ intros data res [H|[H|[]]]; [discriminate |]. injection H as <- <-.
              exists a. repeat split; auto using in_eq.
           ++ intros _. simpl. rewrite ?Hre, ?append_Empty. split; [reflexivity | eauto].
        -- destruct (IH {| conn := conn s;
                           trace := (trace s ++ [EvRead (String.length (readBytes a))]) ++
                                    [EvWritePacket (header ++ readBytes a) None];
                           writes := S (writes s) |})
             as (evs & Ht & Hf & Hd & Hp).
           exists (EvRead (String.length (readBytes a)) ::
                   EvWritePacket (header ++ readBytes a) None :: evs).
           split; [rewrite Ht; simpl; now rewrite <- !app_assoc |].
           split; [repeat constructor; assumption |].
           split.
           ++ intros data res [H|[H|H]]; [discriminate | |].
              ** injection H as <- <-. exists a. repeat split; auto using in_eq.
              ** destruct (Hd data res H) as (a' & Ha' & Hrest). exists a'.
                 split; [now right | exact Hrest].
           ++ intros Hall. destruct (Hp Hall) as [Hpay Herr].
              split; [| exact Herr].
              simpl. rewrite ?Hre, ?append_Empty, Hpay. reflexivity.
    + apply length_zero_empty in Hn.
      destruct (readErr a) as [re|] eqn:Hre.
      * simpl. exists [EvRead (String.length (readBytes a))].
        split; [reflexivity |]. split; [repeat constructor |].
        split; [intros data res [H|[]]; discriminate |].
        intros _. simpl. rewrite ?Hre, Hn. split; [reflexivity | eauto].
      * destruct (IH {| conn := conn s;
                        trace := trace s ++ [EvRead (String.length (readBytes a))];
                        writes := writes s |})
          as (evs & Ht & Hf & Hd & Hp).
        exists (EvRead (String.length (readBytes a)) :: evs).
        split; [rewrite Ht; simpl; now rewrite <- !app_assoc |].
        split; [repeat constructor; assumption |].
        split.
        -- intros data res [H|H]; [discriminate |].
           destruct (Hd data res H) as (a' & Ha' & Hrest). exists a'.
           split; [now right | exact Hrest].
        -- intros Hall. destruct (Hp Hall) as [Hpay Herr].
           split; [| exact Herr]. simpl. rewrite ?Hre, Hn, Hpay. reflexivity.
Qed.

(** The events of lines 156-188 and of the deferred [Close]: the reads
    and data packets of the loop, if it runs; then the traffic that ends
    the request, in which every packet is the termination packet; then the
    [Close], if one was deferred. *)
Lemma finishRequest_events (env : Env) (src : Source) (s : State) :
  exists content ending,
    trace (snd (finishRequest env src s))
    = (trace s ++ content ++ ending ++ closeEvents (deferred src))%list
    /\ conn (snd (finishRequest env src s)) = conn s
    /\ Forall (λ e, isTransfer e = true) content
    /\ Forall (λ e, isProtocol e = true) ending
    /\ (forall data res, In (EvWritePacket data res) ending -> data = header)
    /\ match rdr src with
       | inl r =>
           if 0 <? packetSize src then
             (forall data res, In (EvWritePacket data res) content ->
                exists a, In a (r (packetSize src)) /\ data = header ++ readBytes a
                          /\ (0 < String.length (readBytes a))%nat)
             /\ ((forall n, writePacketResult env n = None) ->
                   payloads content = allBytes (upToError (r (packetSize src))))
           else content = []
       | inr _ => content = []
       end.
Proof.
  unfold finishRequest. unfold mbind, M_bind.
  assert (Hsend : exists content,
            trace (snd (sendContent env src s)) = (trace s ++ content)%list
            /\ conn (snd (sendContent env src s)) = conn s
            /\ Forall (λ e, isTransfer e = true) content
            /\ match rdr src with
               | inl r =>
                   if 0 <? packetSize src then
                     (forall data res, In (EvWritePacket data res) content ->
                        exists a, In a (r (packetSize src)) /\ data = header ++ readBytes a
                                  /\ (0 < String.length (readBytes a))%nat)
                     /\ ((forall n, writePacketResult env n = None) ->
                           payloads content = allBytes (upToError (r (packetSize src))))
                   else content = []
               | inr _ => content = []
               end).
  { unfold sendContent. destruct (rdr src) as [r|err].
    - destruct (0 <? packetSize src).
      + destruct (readLoop_packets env (r (packetSize src)) s) as (evs & Ht & Hf & Hd & Hp).
        destruct (readLoop_traffic env (r (packetSize src)) s) as [Hc _].
        unfold mbind, M_bind.
        destruct (readLoop env (r (packetSize src)) s) as [x s1]; simpl in *.
        exists evs.
        destruct x as [ioErr|[]]; simpl; repeat split; auto; intros Hall; now apply Hp.
      + exists []. rewrite app_nil_r. repeat split; auto.
    - exists []. rewrite app_nil_r. repeat split; auto. }
  destruct Hsend as (content & Ht & Hc & Hf & Hsrc).
  destruct (sendContent env src s) as [x s1]; simpl in Ht, Hc.
  assert (Hterm : exists ending r1 s2,
            (match x with
             | inl ioErr => mret (Some ioErr)
             | inr err => terminate env err
             end s1) = (r1, s2)
            /\ trace s2 = (trace s1 ++ ending)%list
            /\ conn s2 = conn s1
            /\ Forall (λ e, isProtocol e = true) ending
            /\ (forall data res, In (EvWritePacket data res) ending -> data = header)).
  { destruct x as [ioErr|err].
    - exists [], (Some ioErr), s1. rewrite app_nil_r. repeat split; auto.
      intros data res [].
    - destruct (terminate_traffic env err s1) as (Hcn & Htt & _). cbv zeta in Htt.
      destruct (terminate env err s1) as [r1 s2]; simpl in Hcn, Htt.
      eexists _, r1, s2. split; [reflexivity |]. split; [exact Htt |].
      split; [exact Hcn |].
      destruct (writePacketResult env (writes s1)) as [e|]; [| destruct err as [e|]];
        (split; [repeat constructor |]);
        intros data res Hin; simpl in Hin;
        repeat (destruct Hin as [Hin|Hin]; [try discriminate; now injection Hin as <- _ |]);
        contradiction. }
  destruct Hterm as (ending & r1 & s2 & Heq & Ht2 & Hc2 & Hfe & Hde).
  rewrite Heq.
  exists content, ending.
  assert (Hcl : trace (snd (deferredClose (deferred src) r1 s2))
                = (trace s2 ++ closeEvents (deferred src))%list
                /\ conn (snd (deferredClose (deferred src) r1 s2)) = conn s2).
  { unfold deferredClose; unfold_M. destruct (deferred src) as [c|]; simpl.
    - destruct r1; simpl; split; reflexivity.
    - rewrite app_nil_r. split; reflexivity. }
  destruct Hcl as [-> ->].
  rewrite Ht2, Ht, Hc2, Hc, <- !app_assoc. repeat split; auto.
Qed.

(** ** Requests for readers and for files *)

(** A name that starts with the prefix is a request for the reader named
    by the rest. *)
Lemma prefix_Empty (s : string) : String.prefix EmptyString s = true.
Proof. destruct s; reflexivity. Qed.

Lemma prefix_String (a b : ascii) (s1 s2 : string) :
  String.prefix (String a s1) (String b s2)
  = if Ascii.eqb a b then String.prefix s1 s2 else false.
Proof.
  simpl. destruct (ascii_dec a b) as [->|Hne].
  - now rewrite Ascii.eqb_refl.
  - apply Ascii.eqb_neq in Hne. now rewrite Hne.
Qed.

Lemma prefix_String_Empty (a : ascii) (s1 : string) :
  String.prefix (String a s1) EmptyString = false.
Proof. reflexivity. Qed.

Lemma prefix_append (s n : string) : String.prefix s (s ++ n) = true.
Proof.
  induction s as [|a s IH]; [apply prefix_Empty |].
  now rewrite append_String, prefix_String, Ascii.eqb_refl.
Qed.

Lemma IndexFrom_eq (i : Z) (s sub : string) :
  GoString.IndexFrom i s sub
  = if String.prefix sub s then i
    else match s with
         | EmptyString => -1
         | String _ r => GoString.IndexFrom (i + 1) r sub
         end.
Proof. destruct s; reflexivity. Qed.

Lemma IndexFrom_prefix (i : Z) (s sub : string) :
  String.prefix sub s = true -> GoString.IndexFrom i s sub = i.
Proof. intros H. now rewrite IndexFrom_eq, H. Qed.

Lemma IndexFrom_step (i : Z) (c : ascii) (s sub : string) :
  String.prefix sub (String c s) = false ->
  GoString.IndexFrom i (String c s) sub = GoString.IndexFrom (i + 1) s sub.
Proof. intros H. now rewrite IndexFrom_eq, H. Qed.

Lemma Index_prefix (s sub : string) : String.prefix sub s = true -> GoString.Index s sub = 0.
Proof. apply IndexFrom_prefix. Qed.

Lemma reader_name (n : string) :
  String.eqb ("Reader::" ++ n) "Data::Data" = false
  /\ readerPrefixed ("Reader::" ++ n) = true
  /\ GoString.drop (Z.to_nat (GoString.Index ("Reader::" ++ n) "Reader::" + 8)) ("Reader::" ++ n)
     = n.
Proof.
  assert (Hi : GoString.Index ("Reader::" ++ n) "Reader::" = 0)
    by (apply Index_prefix, prefix_append).
  unfold readerPrefixed. rewrite Hi. repeat split.
Qed.

Lemma handleInFileRequest_reader (env : Env) (n : string) (mc : mysqlConn) :
  run (handleInFileRequest env ("Reader::" ++ n)) mc
  = (resolveReader env n (initialPacketSize mc) ≫= finishRequest env) (after mc []).
Proof.
  destruct (reader_name n) as (Hs & Hp & Hd).
  unfold run, handleInFileRequest. unfold mbind at 1. unfold M_bind, getConn.
  cbn [conn fst snd]. rewrite Hs, Hp. cbv zeta. rewrite Hd. reflexivity.
Qed.

(** Any other name but the sentinel is a request for a file. *)
Lemma handleInFileRequest_file_path (env : Env) (name : string) (mc : mysqlConn) :
  String.eqb name "Data::Data" = false ->
  readerPrefixed name = false ->
  run (handleInFileRequest env name) mc
  = (resolveFile env (AllowAllFiles (cfg mc)) name (initialPacketSize mc)
       ≫= finishRequest env) (after mc []).
Proof.
  intros Hs Hp. unfold run, handleInFileRequest. unfold mbind at 1. unfold M_bind, getConn.
  cbn [conn fst snd]. rewrite Hs, Hp. reflexivity.
Qed.

(** The ways a reader is resolved. *)
Lemma resolveReader_cases (env : Env) (n : string) (ps : Z) (s : State) :
  (lookupReader (registers env) n = None
   /\ resolveReader env n ps s
      = ({| rdr := inr (ErrReaderNotRegistered n); packetSize := ps; deferred := None |}, s))
  \/ (exists h, lookupReader (registers env) n = Some h /\ h tt = None
      /\ resolveReader env n ps s
         = ({| rdr := inr (ErrReaderIsNil n); packetSize := ps; deferred := None |},
            {| conn := conn s; trace := trace s ++ [EvHandler n]; writes := writes s |}))
  \/ (exists h rd, lookupReader (registers env) n = Some h /\ h tt = Some rd
      /\ resolveReader env n ps s
         = ({| rdr := inl (readerReads rd); packetSize := ps; deferred := closer rd |},
            {| conn := conn s; trace := trace s ++ [EvHandler n]; writes := writes s |})).
Proof.
  unfold resolveReader. destruct (lookupReader (registers env) n) as [h|].
  - unfold_M; simpl. destruct (h tt) as [rd|] eqn:Hh.
    + right; right. exists h, rd. repeat split; auto.
    + right; left. exists h. repeat split; auto.
  - left. destruct s. split; reflexivity.
Qed.

(** The ways a file is resolved. *)
Lemma resolveFile_cases (env : Env) (allow : bool) (name : string) (ps : Z) (s : State) :
  let path := GoString.TrimByte name quote in
  (isFileAllowed (registers env) allow name = false
   /\ resolveFile env allow name ps s
      = ({| rdr := inr (ErrLocalFileNotRegistered path); packetSize := ps; deferred := None |},
         s))
  \/ (isFileAllowed (registers env) allow name = true
      /\ ((exists e, osOpen env path = inl e
           /\ resolveFile env allow name ps s
              = ({| rdr := inr (ErrOpen e); packetSize := ps; deferred := None |},
                 {| conn := conn s; trace := trace s ++ [EvOpen path]; writes := writes s |}))
          \/ (exists file e, osOpen env path = inr file /\ fileStat file = inl e
              /\ resolveFile env allow name ps s
                 = ({| rdr := inr (ErrStat e); packetSize := ps;
                       deferred := Some (fileClose file) |},
                    {| conn := conn s; trace := trace s ++ [EvOpen path; EvStat];
                       writes := writes s |}))
          \/ (exists file size, osOpen env path = inr file /\ fileStat file = inr size
              /\ resolveFile env allow name ps s
                 = ({| rdr := inl (fileReads file);
                       packetSize := if size <? ps then size else ps;
                       deferred := Some (fileClose file) |},
                    {| conn := conn s; trace := trace s ++ [EvOpen path; EvStat];
                       writes := writes s |})))).
Proof.
  cbv zeta. unfold resolveFile, isFileAllowed.
  destruct (allow || lookupFile (registers env) (GoString.TrimByte name quote)).
  - right. split; [reflexivity |]. unfold_M; simpl.
    destruct (osOpen env (GoString.TrimByte name quote)) as [e|file] eqn:Ho; simpl.
    + left. exists e. split; reflexivity.
    + destruct (fileStat file) as [e|size] eqn:Hst; simpl; rewrite <- app_assoc.
      * right; left. exists file, e. repeat split; auto.
      * right; right. exists file, size. repeat split; auto.
  - left. destruct s. split; reflexivity.
Qed.

Lemma initialPacketSize_le (mc : mysqlConn) :
  initialPacketSize mc <= 16 * 1024 /\ initialPacketSize mc <= maxWriteSize mc.
Proof. unfold initialPacketSize. destruct (Z.ltb_spec (maxWriteSize mc) (16 * 1024)); lia. Qed.

Lemma bind_run {A : Type} (m : M A) (k : A -> M (option error)) (s : State) :
  (m ≫= k) s = k (fst (m s)) (snd (m s)).
Proof. unfold mbind, M_bind. now destruct (m s). Qed.

(** A request leaves the connection as it found it, unless it is the
    sentinel; and what it resolved is one of the sources above. *)
Lemma request_source (env : Env) (name : string) (mc : mysqlConn) :
  String.eqb name "Data::Data" = false ->
  exists src tr0,
    run (handleInFileRequest env name) mc = finishRequest env src (after mc tr0)
    /\ Forall (λ e, isTransfer e = false /\ isClose e = false /\ isProtocol e = false) tr0
    /\ packetSize src <= initialPacketSize mc
    /\ (readerPrefixed name = true ->
        Forall (λ e, isOpen e = false) tr0
        /\ filter (λ e, isHandler e = true) tr0
           = match lookupReader (registers env)
                     (GoString.drop (Z.to_nat (GoString.Index name "Reader::" + 8)) name) with
             | Some _ =>
                 [EvHandler (GoString.drop (Z.to_nat (GoString.Index name "Reader::" + 8)) name)]
             | None => []
             end)
    /\ (readerPrefixed name = false -> Forall (λ e, isHandler e = false) tr0)
    /\ (forall r, rdr src = inl r ->
        (exists n h rd, lookupReader (registers env) n = Some h /\ h tt = Some rd
                        /\ r = readerReads rd)
        \/ (exists path file, osOpen env path = inr file /\ r = fileReads file))
    /\ match rdr src with
       | inr err => localError err = true
       | inl _ => True
       end.
Proof.
  intros Hs. unfold run, handleInFileRequest. unfold mbind at 1. unfold M_bind, getConn.
  cbn [conn fst snd]. rewrite Hs.
  change (if maxWriteSize mc <? 16 * 1024 then maxWriteSize mc else 16 * 1024)
    with (initialPacketSize mc).
  cbv zeta. rewrite bind_run.
  destruct (readerPrefixed name) eqn:Hp.
  - set (n := GoString.drop (Z.to_nat (GoString.Index name "Reader::" + 8)) name).
    destruct (resolveReader_cases env n (initialPacketSize mc)
                {| conn := mc; trace := []; writes := 0 |})
      as [[Hl ->]|[(h & Hl & Hh & ->)|(h & rd & Hl & Hh & ->)]];
      rewrite Hl; cbn [fst snd].
    + exists {| rdr := inr (ErrReaderNotRegistered n); packetSize := initialPacketSize mc;
                deferred := None |}, [].
      cbn [rdr packetSize deferred].
      split; [reflexivity |]. split; [constructor |]. split; [lia |].
      split; [intros _; split; [constructor | reflexivity] |].
      split; [discriminate |]. split; [discriminate | reflexivity].
    + exists {| rdr := inr (ErrReaderIsNil n); packetSize := initialPacketSize mc;
                deferred := None |}, [EvHandler n].
      cbn [rdr packetSize deferred].
      split; [reflexivity |]. split; [repeat constructor |]. split; [lia |].
      split; [intros _; split; [repeat constructor | reflexivity] |].
      split; [discriminate |]. split; [discriminate | reflexivity].
    + exists (readerSource mc rd), [EvHandler n].
      unfold readerSource; cbn [rdr packetSize deferred].
      split; [reflexivity |]. split; [repeat constructor |]. split; [lia |].
      split; [intros _; split; [repeat constructor | reflexivity] |].
      split; [discriminate |]. split; [| exact I].
      intros r [= <-]. left. exists n, h, rd. auto.
  - destruct (resolveFile_cases env (AllowAllFiles (cfg mc)) name (initialPacketSize mc)
                {| conn := mc; trace := []; writes := 0 |})
      as [[Ha ->]|[Ha [(e & Ho & ->)|[(file & e & Ho & Hst & ->)|(file & size & Ho & Hst & ->)]]]];
      cbn [fst snd].
    + exists {| rdr := inr (ErrLocalFileNotRegistered (GoString.TrimByte name quote));
                packetSize := initialPacketSize mc; deferred := None |}, [].
      cbn [rdr packetSize deferred].
      split; [reflexivity |]. split; [constructor |]. split; [lia |].
      split; [discriminate |]. split; [intros _; constructor |].
      split; [discriminate | reflexivity].
    + exists {| rdr := inr (ErrOpen e); packetSize := initialPacketSize mc;
                deferred := None |}, [EvOpen (GoString.TrimByte name quote)].
      cbn [rdr packetSize deferred].
      split; [reflexivity |]. split; [repeat constructor |]. split; [lia |].
      split; [discriminate |]. split; [intros _; repeat constructor |].
      split; [discriminate | reflexivity].
    + exists {| rdr := inr (ErrStat e); packetSize := initialPacketSize mc;
                deferred := Some (fileClose file) |},
             [EvOpen (GoString.TrimByte name quote); EvStat].
      cbn [rdr packetSize deferred].
      split; [reflexivity |]. split; [repeat constructor |]. split; [lia |].
      split; [discriminate |]. split; [intros _; repeat constructor |].
      split; [discriminate | reflexivity].
    + exists (fileSource mc file size), [EvOpen (GoString.TrimByte name quote); EvStat].
      unfold fileSource; cbn [rdr packetSize deferred].
      split; [reflexivity |]. split; [repeat constructor |].
      split; [destruct (Z.ltb_spec size (initialPacketSize mc)); lia |].
      split; [discriminate |]. split; [intros _; repeat constructor |].
      split; [| exact I].
      intros r [= <-]. right. eauto.
Qed.

Lemma payloads_header_only (l : list event) :
  (forall data res, In (EvWritePacket data res) l -> data = header) ->
  payloads l = EmptyString.
Proof.
  induction l as [|e l IH]; intros H; [reflexivity |].
  assert (Hl : payloads l = EmptyString) by (apply IH; intros; eapply H; right; eauto).
  destruct e; simpl; rewrite ?Hl; try reflexivity.
  rewrite (H data result) by now left. reflexivity.
Qed.

Lemma payloads_no_packets (l : list event) :
  Forall (λ e, isTransfer e = false /\ isClose e = false /\ isProtocol e = false) l ->
  payloads l = EmptyString.
Proof.
  intros H. apply payloads_header_only. intros data res Hin.
  rewrite List.Forall_forall in H. apply H in Hin as (Hin & _). discriminate.
Qed.

Lemma payloads_closeEvents (d : option (option nat)) : payloads (closeEvents d) = EmptyString.
Proof. destruct d; reflexivity. Qed.

Lemma Forall_weaken {A : Type} (P Q : A -> Prop) (l : list A) :
  (forall x, P x -> Q x) -> Forall P l -> Forall Q l.
Proof. intros H HP. induction HP; constructor; auto. Qed.

Lemma closeEvents_not (P : event -> Prop) (d : option (option nat)) :
  P EvClose -> Forall P (closeEvents d).
Proof. intros H. destruct d; repeat constructor. exact H. Qed.

(** X9. When every reader and every file keeps the contract of [Read]
    (no more bytes than the buffer holds), every packet of a request is
    either the termination packet or a data packet whose payload is at
    least one byte and at most the packet size: never more than 16 KiB and
    never more than the maximum write size of the connection. *)
Theorem data_packets_bounded (env : Env) (name : string) (mc : mysqlConn)
    (data : string) (res : option error) :
  String.eqb name "Data::Data" = false ->
  (forall n h rd, lookupReader (registers env) n = Some h -> h tt = Some rd ->
                  withinCapacity (readerReads rd)) ->
  (forall path file, osOpen env path = inr file -> withinCapacity (fileReads file)) ->
  In (EvWritePacket data res) (trace (snd (run (handleInFileRequest env name) mc))) ->
  data = header
  \/ (4 < Z.of_nat (String.length data) <= 4 + 16 * 1024
      /\ Z.of_nat (String.length data) <= 4 + maxWriteSize mc).
Proof.
  intros Hs Hrd Hfile Hin.
  destruct (request_source env name mc Hs) as (src & tr0 & Heq & H0 & Hps & _ & _ & Hsrc & _).
  rewrite Heq in Hin.
  destruct (finishRequest_events env src (after mc tr0))
    as (content & ending & Ht & _ & _ & _ & Hend & Hcont).
  rewrite Ht in Hin. simpl in Hin.
  apply in_app_or in Hin as [Hin|Hin].
  { rewrite List.Forall_forall in H0. apply H0 in Hin as (Hin & _). discriminate. }
  apply in_app_or in Hin as [Hin|Hin].
  2:{ apply in_app_or in Hin as [Hin|Hin]; [left; eapply Hend; eauto |].
      destruct (deferred src); simpl in Hin; [destruct Hin as [Hin|[]]; discriminate |].
      contradiction. }
  right. destruct (rdr src) as [r|err] eqn:Hr; [| subst content; contradiction].
  destruct (Z.ltb_spec 0 (packetSize src)) as [Hpos|Hneg]; [| subst content; contradiction].
  destruct Hcont as [Hd _]. destruct (Hd data res Hin) as (a & Ha & -> & Hlen).
  assert (Hcap : withinCapacity r).
  { destruct (Hsrc r eq_refl) as [(n & h & rd & Hl & Hh & ->)|(path & file & Ho & ->)]; eauto. }
  specialize (Hcap (packetSize src) a Hpos Ha).
  destruct (initialPacketSize_le mc) as [H16 Hmw].
  rewrite length_append. change (String.length header) with 4%nat. lia.
Qed.

Lemma length_take_le (n : nat) (s : string) : (String.length (GoString.take n s) <= n)%nat.
Proof.
  revert s; induction n as [|n IH]; intros [|c s]; simpl; try lia.
  specialize (IH s). lia.
Qed.

Lemma piecesOf_withinCapacity (content : string) : withinCapacity (fileReads (fileOf content)).
Proof.
  intros capacity a Hpos. simpl.
  generalize (String.length content) as fuel. intros fuel. revert content.
  induction fuel as [|fuel IH]; intros content Hin; [destruct content; contradiction |].
  destruct content as [|c rest]; [contradiction |].
  destruct Hin as [<-|Hin]; [| eapply IH; eauto].
  simpl readBytes. pose proof (length_take_le (Z.to_nat capacity) (String c rest)). lia.
Qed.

Lemma data_packets_bounded_witness :
  header ++ "a,b" = header
  \/ (4 < Z.of_nat (String.length (header ++ "a,b")) <= 4 + 16 * 1024
      /\ Z.of_nat (String.length (header ++ "a,b")) <= 4 + maxWriteSize smallConn).
Proof.
  apply (data_packets_bounded fileEnv "/tmp/data.csv" smallConn (header ++ "a,b") None).
  - reflexivity.
  - intros n h rd H. discriminate.
  - intros path file H. unfold fileEnv, sampleFiles in H; simpl in H.
    destruct (String.eqb path "/tmp/data.csv"); [| discriminate].
    injection H as <-. apply piecesOf_withinCapacity.
  - vm_compute. right; right; right; left. reflexivity.
Defined.

(** X10. When no write fails, the data packets of a request for a
    registered reader carry, in order and complete, the bytes of every
    [Read] up to the first one that returned an error, the bytes that came
    together with that error or with [io.EOF] included; the termination
    packet adds nothing. *)
Theorem reader_payload (env : Env) (n : string) (h : handler) (rd : Reader) (mc : mysqlConn) :
  lookupReader (registers env) n = Some h ->
  h tt = Some rd ->
  (forall k, writePacketResult env k = None) ->
  0 < maxWriteSize mc ->
  payloads (trace (snd (run (handleInFileRequest env ("Reader::" ++ n)) mc)))
  = allBytes (upToError (readerReads rd (initialPacketSize mc))).
Proof.
  intros Hl Hh Hw Hmw. rewrite handleInFileRequest_reader, bind_run.
  destruct (resolveReader_cases env n (initialPacketSize mc) (after mc []))
    as [[Hl' _]|[(h' & Hl' & Hh' & _)|(h' & rd' & Hl' & Hh' & ->)]];
    [congruence | congruence |].
  assert (h' = h) by congruence; subst h'. assert (rd' = rd) by congruence; subst rd'.
  cbn [fst snd].
  match goal with
  | |- context [finishRequest env ?src ?s] =>
      destruct (finishRequest_events env src s)
        as (content & ending & -> & _ & _ & _ & Hend & Hcont)
  end.
  cbn [rdr packetSize deferred] in Hcont.
  assert (Hpos : (0 <? initialPacketSize mc) = true).
  { apply Z.ltb_lt. unfold initialPacketSize.
    destruct (Z.ltb_spec (maxWriteSize mc) (16 * 1024)); lia. }
  rewrite Hpos in Hcont. destruct Hcont as [_ Hpay].
  cbn [trace after]. rewrite !payloads_app, (Hpay Hw), (payloads_header_only ending Hend).
  rewrite payloads_closeEvents. simpl. now rewrite !append_nil_r.
Qed.

Lemma reader_payload_witness :
  payloads (trace (snd (run (handleInFileRequest closerEnv ("Reader::" ++ "closing"))
                          sampleConn)))
  = "z".
Proof.
  apply (reader_payload closerEnv "closing" (fun _ => Some closingReader) closingReader
           sampleConn); try reflexivity.
Defined.

(** The events of a request for a file that was opened and measured:
    the open and the [Stat], the read loop, the end of the request and the
    [Close]. *)
Lemma request_file_events (env : Env) (name : string) (mc : mysqlConn) (file : File) (size : Z) :
  String.eqb name "Data::Data" = false ->
  readerPrefixed name = false ->
  isFileAllowed (registers env) (AllowAllFiles (cfg mc)) name = true ->
  osOpen env (GoString.TrimByte name quote) = inr file ->
  fileStat file = inr size ->
  exists content ending,
    trace (snd (run (handleInFileRequest env name) mc))
    = ([EvOpen (GoString.TrimByte name quote); EvStat] ++ content ++ ending ++ [EvClose])%list
    /\ Forall (λ e, isProtocol e = true) ending
    /\ (forall data res, In (EvWritePacket data res) ending -> data = header)
    /\ (if 0 <? Z.min size (initialPacketSize mc)
        then (forall k, writePacketResult env k = None) ->
             payloads content
             = allBytes (upToError (fileReads file (Z.min size (initialPacketSize mc))))
        else content = []).
Proof.
  intros Hs Hp Ha Ho Hst.
  rewrite (handleInFileRequest_file_path env name mc Hs Hp), bind_run.
  destruct (resolveFile_cases env (AllowAllFiles (cfg mc)) name (initialPacketSize mc)
              (after mc []))
    as [[Ha' _]|[_ [(e & Ho' & _)|[(f & e & Ho' & Hst' & _)|(f & sz & Ho' & Hst' & ->)]]]];
    try congruence.
  assert (f = file) by congruence; subst f. assert (sz = size) by congruence; subst sz.
  cbn [fst snd].
  match goal with
  | |- context [finishRequest env ?src ?s] =>
      destruct (finishRequest_events env src s)
        as (content & ending & -> & _ & Hf & Hfe & Hend & Hcont)
  end.
  cbn [rdr packetSize deferred] in Hcont.
  replace (if size <? initialPacketSize mc then size else initialPacketSize mc)
    with (Z.min size (initialPacketSize mc)) in Hcont
    by (destruct (Z.ltb_spec size (initialPacketSize mc)); lia).
  exists content, ending. cbn [trace after closeEvents].
  split; [reflexivity |]. split; [exact Hfe |]. split; [exact Hend |].
  destruct (0 <? Z.min size (initialPacketSize mc)); [now destruct Hcont | exact Hcont].
Qed.

Lemma payloads_file_events (path : string) (content ending : list event) :
  (forall data res, In (EvWritePacket data res) ending -> data = header) ->
  payloads ([EvOpen path; EvStat] ++ content ++ ending ++ [EvClose]) = payloads content.
Proof.
  intros Hend. rewrite !payloads_app, (payloads_header_only ending Hend).
  simpl. now rewrite !append_nil_r.
Qed.

(** X11. When no write fails, the data packets of a request for a file
    that was opened carry the bytes of its reads, as for a reader, with a
    buffer of the smaller of the file's size and the packet size of the
    connection; a file of size zero is not read at all. *)
Theorem file_payload (env : Env) (name : string) (mc : mysqlConn) (file : File) (size : Z) :
  String.eqb name "Data::Data" = false ->
  readerPrefixed name = false ->
  isFileAllowed (registers env) (AllowAllFiles (cfg mc)) name = true ->
  osOpen env (GoString.TrimByte name quote) = inr file ->
  fileStat file = inr size ->
  (forall k, writePacketResult env k = None) ->
  let tr := trace (snd (run (handleInFileRequest env name) mc)) in
  let ps := Z.min size (initialPacketSize mc) in
  payloads tr = (if 0 <? ps then allBytes (upToError (fileReads file ps)) else EmptyString)
  /\ (ps <= 0 -> Forall (λ e, isRead e = false) tr).
Proof.
  intros Hs Hp Ha Ho Hst Hw. cbv zeta.
  destruct (request_file_events env name mc file size Hs Hp Ha Ho Hst)
    as (content & ending & -> & Hfe & Hend & Hcont).
  rewrite (payloads_file_events _ content ending Hend).
  destruct (Z.ltb_spec 0 (Z.min size (initialPacketSize mc))) as [Hpos|Hneg].
  - split; [exact (Hcont Hw) | lia].
  - subst content. split; [reflexivity |]. intros _.
    simpl. repeat constructor. apply Forall_app. split.
    + eapply Forall_weaken; [| exact Hfe]. intros [] H; try discriminate; reflexivity.
    + repeat constructor.
Qed.

Lemma file_payload_witness :
  payloads (trace (snd (run (handleInFileRequest fileEnv "/tmp/data.csv") smallConn)))
  = "a,b,c".
Proof.
  apply (file_payload fileEnv "/tmp/data.csv" smallConn (fileOf "a,b,c") 5);
    try reflexivity.
Defined.

(** ** Closing what was opened *)

Lemma transfer_not_close (l : list event) :
  Forall (λ e, isTransfer e = true) l -> Forall (λ e, isClose e = false /\ isOpen e = false) l.
Proof. apply Forall_weaken. intros [] H; try discriminate; split; reflexivity. Qed.

Lemma protocol_not_close (l : list event) :
  Forall (λ e, isProtocol e = true) l -> Forall (λ e, isClose e = false /\ isOpen e = false) l.
Proof. apply Forall_weaken. intros [] H; try discriminate; split; reflexivity. Qed.

(** After resolution a request does its transfer and its final traffic,
    none of which is a [Close] or an open, and then the deferred [Close]
    alone. *)
Lemma finishRequest_close (env : Env) (src : Source) (s : State) :
  exists evs,
    trace (snd (finishRequest env src s)) = (trace s ++ evs ++ closeEvents (deferred src))%list
    /\ Forall (λ e, isClose e = false /\ isOpen e = false) evs.
Proof.
  destruct (finishRequest_events env src s) as (content & ending & Ht & _ & Hc & He & _).
  exists (content ++ ending)%list. rewrite Ht, <- !app_assoc. split; [reflexivity |].
  apply Forall_app. split; [now apply transfer_not_close | now apply protocol_not_close].
Qed.

(** X12. A request for a file closes the file exactly when it opened it,
    once, and as its last action: whatever happens after the open (a
    failed [Stat], a failed read, a failed write, an error reported by the
    server), the trace is the open, the [Stat], events that are neither a
    [Close] nor an open, and the [Close].  When the file is not allowed or
    cannot be opened there is no [Close] at all. *)
Theorem file_closed_once (env : Env) (name : string) (mc : mysqlConn) :
  String.eqb name "Data::Data" = false ->
  readerPrefixed name = false ->
  let tr := trace (snd (run (handleInFileRequest env name) mc)) in
  let path := GoString.TrimByte name quote in
  match (if isFileAllowed (registers env) (AllowAllFiles (cfg mc)) name
         then osOpen env path else inl O) with
  | inr _ =>
      exists evs, tr = (EvOpen path :: EvStat :: evs ++ [EvClose])%list
                  /\ Forall (λ e, isClose e = false /\ isOpen e = false) evs
  | inl _ => Forall (λ e, isClose e = false) tr
  end.
Proof.
  intros Hs Hp. cbv zeta.
  rewrite (handleInFileRequest_file_path env name mc Hs Hp), bind_run.
  destruct (resolveFile_cases env (AllowAllFiles (cfg mc)) name (initialPacketSize mc)
              (after mc []))
    as [[Ha ->]|[Ha [(e & Ho & ->)|[(f & e & Ho & Hst & ->)|(f & sz & Ho & Hst & ->)]]]];
    rewrite Ha, ?Ho; cbn [fst snd];
    match goal with
    | |- context [finishRequest env ?src ?s] =>
        destruct (finishRequest_close env src s) as (evs & -> & Hevs)
    end; cbn [deferred closeEvents trace after conn].
  - rewrite app_nil_r. simpl. eapply Forall_weaken; [| exact Hevs]. now intros e [H _].
  - rewrite app_nil_r. simpl. constructor; [reflexivity |].
    eapply Forall_weaken; [| exact Hevs]. now intros e' [H _].
  - exists evs. split; [reflexivity | exact Hevs].
  - exists evs. split; [reflexivity | exact Hevs].
Qed.

Lemma file_closed_once_witness :
  exists evs,
    trace (snd (run (handleInFileRequest fileEnv "/tmp/data.csv") smallConn))
    = (EvOpen "/tmp/data.csv" :: EvStat :: evs ++ [EvClose])%list
    /\ Forall (λ e, isClose e = false /\ isOpen e = false) evs.
Proof.
  exact (file_closed_once fileEnv "/tmp/data.csv" smallConn eq_refl eq_refl).
Defined.

(** X13. A reader that a handler returned is closed exactly when it is an
    [io.Closer]: then [Close] is called once, as the last action of the
    request and on every way out of it; a reader that is no [io.Closer] is
    never closed; the call of the handler is the first event of the
    request. *)
Theorem reader_closed_once (env : Env) (n : string) (h : handler) (rd : Reader)
    (mc : mysqlConn) :
  lookupReader (registers env) n = Some h ->
  h tt = Some rd ->
  exists evs,
    trace (snd (run (handleInFileRequest env ("Reader::" ++ n)) mc))
    = (EvHandler n :: evs ++ closeEvents (closer rd))%list
    /\ Forall (λ e, isClose e = false /\ isOpen e = false) evs.
Proof.
  intros Hl Hh. rewrite handleInFileRequest_reader, bind_run.
  destruct (resolveReader_cases env n (initialPacketSize mc) (after mc []))
    as [[Hl' _]|[(h' & Hl' & Hh' & _)|(h' & rd' & Hl' & Hh' & ->)]];
    [congruence | congruence |].
  assert (h' = h) by congruence; subst h'. assert (rd' = rd) by congruence; subst rd'.
  cbn [fst snd].
  match goal with
  | |- context [finishRequest env ?src ?s] =>
      destruct (finishRequest_close env src s) as (evs & -> & Hevs)
  end.
  exists evs. split; [reflexivity | exact Hevs].
Qed.

Lemma reader_closed_once_witness :
  exists evs,
    trace (snd (run (handleInFileRequest closerEnv ("Reader::" ++ "closing")) sampleConn))
    = (EvHandler "closing" :: evs ++ [EvClose])%list
    /\ Forall (λ e, isClose e = false /\ isOpen e = false) evs.
Proof.
  exact (reader_closed_once closerEnv "closing" (fun _ => Some closingReader) closingReader
           sampleConn eq_refl eq_refl).
Defined.

(** The error of a [Close] is returned only when nothing else failed. *)
Lemma finishRequest_close_error (env : Env) (src : Source) (s : State) (e : nat) :
  match rdr src with
  | inr err => localError err = true
  | inl _ => True
  end ->
  fst (finishRequest env src s) = Some (ErrClose e) ->
  readResultOKResult env = None /\ deferred src = Some (Some e).
Proof.
  intros Hsrc. unfold finishRequest. unfold mbind, M_bind.
  pose proof (sendContent_traffic env src s Hsrc) as H. cbv zeta in H.
  destruct (sendContent env src s) as [x s1]; simpl in H.
  destruct H as (_ & evs & pre & _ & _ & _ & Hx).
  destruct x as [ioErr|err].
  - destruct Hx as (data & w & _ & _ & ->). unfold mret, M_ret; cbv beta iota.
    destruct (deferredClose_traffic (deferred src) (Some (ErrWritePacket w)) s1) as (_ & _ & Hd).
    rewrite Hd. discriminate.
  - destruct (terminate_traffic env err s1) as (_ & _ & Hr). cbv zeta in Hr.
    destruct (terminate env err s1) as [r1 s2]; simpl in Hr.
    destruct (writePacketResult env (writes s1)) as [w|].
    + subst r1. destruct (deferredClose_traffic (deferred src) (Some (ErrWritePacket w)) s2)
        as (_ & _ & Hd). rewrite Hd. discriminate.
    + destruct err as [err|].
      * subst r1. destruct Hx as [_ Hl].
        destruct (deferredClose_traffic (deferred src) (Some err) s2) as (_ & _ & Hd).
        rewrite Hd. intros [= ->]. discriminate.
      * destruct (readResultOKResult env) as [k|]; simpl in Hr; subst r1.
        -- destruct (deferredClose_traffic (deferred src) (Some (ErrResult k)) s2)
             as (_ & _ & Hd). rewrite Hd. discriminate.
        -- unfold deferredClose; unfold_M.
           destruct (deferred src) as [[c|]|]; simpl; try discriminate.
           intros [= ->]. split; reflexivity.
Qed.

(** X14. The error of [Close] never hides another outcome: a request
    returns it only when every packet went out, the termination packet
    included, and the server's completion result was read and was a
    success. *)
Theorem close_error_last (env : Env) (name : string) (mc : mysqlConn) (e : nat) :
  fst (run (handleInFileRequest env name) mc) = Some (ErrClose e) ->
  readResultOKResult env = None
  /\ exists pre,
       Forall dataWrite pre
       /\ protocol (trace (snd (run (handleInFileRequest env name) mc)))
          = (pre ++ [EvWritePacket header None; EvReadResultOK])%list.
Proof.
  intros Hr.
  destruct (String.eqb name "Data::Data") eqn:Hs.
  { apply String.eqb_eq in Hs; subst name.
    destruct (handleInFileRequest_sentinel env mc) as [H _]. congruence. }
  split.
  - destruct (request_source env name mc Hs) as (src & tr0 & Heq & _ & _ & _ & _ & _ & Hloc).
    rewrite Heq in Hr. now destruct (finishRequest_close_error env src _ e Hloc Hr).
  - pose proof (handleInFileRequest_shape env name mc Hs) as H. rewrite Hr in H.
    destruct H as [pre data w _ _ _ ? | pre w _ _ ? | pre err _ Hl _ [= <-] | pre Hpre Hp _];
      try discriminate.
    exists pre. auto.
Qed.

Lemma close_error_last_witness :
  readResultOKResult closerEnv = None
  /\ exists pre,
       Forall dataWrite pre
       /\ protocol (trace (snd (run (handleInFileRequest closerEnv ("Reader::" ++ "closing"))
                                   sampleConn)))
          = (pre ++ [EvWritePacket header None; EvReadResultOK])%list.
Proof.
  exact (close_error_last closerEnv ("Reader::" ++ "closing") sampleConn 7 eq_refl).
Defined.

(** ** What a request touches *)

Lemma filter_handler_none (l : list event) :
  Forall (λ e, isHandler e = false) l -> filter (λ e, isHandler e = true) l = [].
Proof.
  induction 1 as [|e l He _ IH]; [reflexivity |].
  rewrite filter_cons_False by congruence. exact IH.
Qed.

Lemma transfer_not_handler (l : list event) :
  Forall (λ e, isTransfer e = true) l ->
  Forall (λ e, isHandler e = false /\ isOpen e = false /\ isClose e = false) l.
Proof. apply Forall_weaken. intros [] H; try discriminate; repeat split. Qed.

Lemma protocol_not_handler (l : list event) :
  Forall (λ e, isProtocol e = true) l ->
  Forall (λ e, isHandler e = false /\ isOpen e = false /\ isRead e = false) l.
Proof. apply Forall_weaken. intros [] H; try discriminate; repeat split. Qed.

(** X15. With a maximum write size of zero or less a request reads
    nothing from its source and sends no data packet: whatever the reader
    or the file holds, the only packet is the termination packet. *)
Theorem nothing_read_without_room (env : Env) (name : string) (mc : mysqlConn) :
  String.eqb name "Data::Data" = false ->
  maxWriteSize mc <= 0 ->
  let tr := trace (snd (run (handleInFileRequest env name) mc)) in
  Forall (λ e, isRead e = false) tr
  /\ (forall data res, In (EvWritePacket data res) tr -> data = header).
Proof.
  intros Hs Hmw. cbv zeta.
  destruct (request_source env name mc Hs) as (src & tr0 & -> & H0 & Hps & _).
  destruct (finishRequest_events env src (after mc tr0))
    as (content & ending & -> & _ & _ & Hfe & Hend & Hcont).
  destruct (initialPacketSize_le mc) as [_ Hi].
  assert (Hc : content = []).
  { destruct (rdr src); [| exact Hcont].
    destruct (Z.ltb_spec 0 (packetSize src)); [lia | exact Hcont]. }
  subst content. cbn [trace after app]. split.
  - apply Forall_app. split.
    + eapply Forall_weaken; [| exact H0]. intros [] (H & _ & H'); try discriminate; reflexivity.
    + apply Forall_app. split.
      * eapply Forall_weaken; [| exact (protocol_not_handler _ Hfe)]. now intros e (_ & _ & H).
      * apply closeEvents_not. reflexivity.
  - intros data res Hin. apply in_app_or in Hin as [Hin|Hin].
    { rewrite List.Forall_forall in H0. apply H0 in Hin as (_ & _ & Hin). discriminate. }
    apply in_app_or in Hin as [Hin|Hin]; [eapply Hend; eauto |].
    destruct (deferred src); simpl in Hin; [destruct Hin as [Hin|[]]; discriminate |].
    contradiction.
Qed.

Lemma nothing_read_without_room_witness :
  Forall (λ e, isRead e = false)
    (trace (snd (run (handleInFileRequest (sampleEnv allWritesSucceed) "Reader::data")
                   noRoomConn))).
Proof.
  apply (nothing_read_without_room (sampleEnv allWritesSucceed) "Reader::data" noRoomConn).
  - reflexivity.
  - simpl. lia.
Defined.

(** Once the source is resolved, a request calls no handler and opens no
    file, and it leaves the connection as it is. *)
Lemma finishRequest_quiet (env : Env) (src : Source) (s : State) :
  exists evs,
    trace (snd (finishRequest env src s)) = (trace s ++ evs)%list
    /\ conn (snd (finishRequest env src s)) = conn s
    /\ Forall (λ e, isHandler e = false /\ isOpen e = false) evs.
Proof.
  destruct (finishRequest_events env src s) as (content & ending & Ht & Hc & Hfc & Hfe & _).
  exists (content ++ ending ++ closeEvents (deferred src))%list.
  split; [exact Ht |]. split; [exact Hc |].
  apply Forall_app. split.
  - eapply Forall_weaken; [| exact (transfer_not_handler _ Hfc)]. now intros e (H & H' & _).
  - apply Forall_app. split.
    + eapply Forall_weaken; [| exact (protocol_not_handler _ Hfe)]. now intros e (H & H' & _).
    + apply closeEvents_not. split; reflexivity.
Qed.

(** X16. A request touches only what its name selects.  It leaves the
    connection (the row buffer and the loading flag with it) as it was.  A
    name with the reader prefix calls the handler registered under the
    rest of the name once, if there is one, and opens no file; any other
    name calls no handler. *)
Theorem request_footprint (env : Env) (name : string) (mc : mysqlConn) :
  String.eqb name "Data::Data" = false ->
  let tr := trace (snd (run (handleInFileRequest env name) mc)) in
  conn (snd (run (handleInFileRequest env name) mc)) = mc
  /\ filter (λ e, isHandler e = true) tr
     = (if readerPrefixed name
        then match lookupReader (registers env) (readerName name) with
             | Some _ => [EvHandler (readerName name)]
             | None => []
             end
        else [])
  /\ (readerPrefixed name = true -> Forall (λ e, isOpen e = false) tr).
Proof.
  intros Hs. cbv zeta.
  destruct (request_source env name mc Hs) as (src & tr0 & -> & H0 & _ & Hrd & Hfl & _).
  destruct (finishRequest_quiet env src (after mc tr0)) as (evs & -> & -> & Hq).
  split; [reflexivity |]. cbn [trace after]. split.
  - rewrite filter_app.
    rewrite (filter_handler_none evs)
      by (eapply Forall_weaken; [| exact Hq]; now intros e [H _]).
    rewrite app_nil_r. unfold readerName.
    destruct (readerPrefixed name).
    + now destruct (Hrd eq_refl) as [_ ->].
    + apply filter_handler_none. now apply Hfl.
  - intros Hp. apply Forall_app. split.
    + now destruct (Hrd Hp) as [H _].
    + eapply Forall_weaken; [| exact Hq]. now intros e [_ H].
Qed.

Lemma request_footprint_witness :
  conn (snd (run (handleInFileRequest (sampleEnv allWritesSucceed) "Reader::data") sampleConn))
  = sampleConn.
Proof.
  apply (request_footprint (sampleEnv allWritesSucceed) "Reader::data" sampleConn).
  reflexivity.
Defined.

(** ** Names of requests *)

Lemma prefix_foreign (c : ascii) (p d r : string) :
  countByte c p = O ->
  String.prefix p (d ++ String c r) = String.prefix p d.
Proof.
  revert d. induction p as [|a p IH]; intros d Hc.
  - now rewrite !prefix_Empty.
  - simpl in Hc. destruct (Ascii.eqb a c) eqn:Hac; [discriminate |].
    destruct d as [|b d].
    + rewrite append_Empty, prefix_String, Hac. reflexivity.
    + rewrite append_String, !prefix_String. destruct (Ascii.eqb a b); [| reflexivity].
      apply IH. exact Hc.
Qed.

Lemma IndexFrom_ge (i : Z) (s sub : string) :
  GoString.IndexFrom i s sub = -1 \/ i <= GoString.IndexFrom i s sub.
Proof.
  revert i. induction s as [|a s IH]; intros i; rewrite IndexFrom_eq.
  - destruct (String.prefix sub EmptyString); [right; lia | now left].
  - destruct (String.prefix sub (String a s)); [right; lia |].
    destruct (IH (i + 1)) as [->|H]; [now left | right; lia].
Qed.

(** The first occurrence in a string followed by a byte that the pattern
    does not hold, and by more: the one in the string if there is one, or
    else the first one behind the byte. *)
Lemma IndexFrom_foreign (c : ascii) (p d r : string) (i : Z) :
  countByte c p = O -> p <> EmptyString -> 0 <= i ->
  GoString.IndexFrom i (d ++ String c r) p
  = if GoString.IndexFrom i d p =? -1
    then GoString.IndexFrom (i + Z.of_nat (String.length d) + 1) r p
    else GoString.IndexFrom i d p.
Proof.
  intros Hc Hp. revert i. induction d as [|b d IH]; intros i Hi.
  - rewrite append_Empty, (IndexFrom_eq i (String c r)), (IndexFrom_eq i EmptyString).
    replace (String.prefix p (String c r)) with (String.prefix p (EmptyString ++ String c r))
      by now rewrite append_Empty.
    rewrite prefix_foreign by exact Hc.
    destruct p as [|a p]; [contradiction |]. rewrite prefix_String_Empty. simpl.
    f_equal. lia.
  - rewrite append_String. rewrite (IndexFrom_eq i (String b (d ++ String c r))).
    rewrite (IndexFrom_eq i (String b d)).
    replace (String b (d ++ String c r)) with (String b d ++ String c r)
      by apply append_String.
    rewrite prefix_foreign by exact Hc.
    destruct (String.prefix p (String b d)).
    + destruct (Z.eqb_spec i (-1)); [lia | reflexivity].
    + rewrite IH by lia. rewrite length_String.
      replace (i + 1 + Z.of_nat (String.length d) + 1)
        with (i + Z.of_nat (S (String.length d)) + 1) by lia.
      reflexivity.
Qed.

Lemma get_append_length (d : string) (c : ascii) (r : string) :
  String.get (String.length d) (d ++ String c r) = Some c.
Proof.
  induction d as [|b d IH]; [now rewrite append_Empty |].
  rewrite append_String. exact IH.
Qed.

Lemma drop_append_length (d r : string) (k : nat) :
  GoString.drop (String.length d + k) (d ++ r) = GoString.drop k r.
Proof.
  induction d as [|b d IH]; [now rewrite append_Empty |].
  rewrite append_String. exact IH.
Qed.

Lemma countByte_eqb (c : ascii) (s t : string) :
  countByte c s <> countByte c t -> String.eqb s t = false.
Proof.
  intros H. apply String.eqb_neq. intros ->. now apply H.
Qed.

Lemma sourceOf_qualified (dir n : string) :
  GoString.Index dir "Reader::" = -1 ->
  String.eqb (dir ++ "/Reader::" ++ n) "Data::Data" = false
  /\ readerPrefixed (dir ++ "/Reader::" ++ n) = true
  /\ readerName (dir ++ "/Reader::" ++ n) = n.
Proof.
  intros Hd.
  assert (Hi : GoString.Index (dir ++ "/Reader::" ++ n) "Reader::"
               = Z.of_nat (String.length dir) + 1).
  { unfold GoString.Index in *.
    change ("/Reader::" ++ n) with (String "/" ("Reader::" ++ n)).
    rewrite (IndexFrom_foreign "/" "Reader::" dir ("Reader::" ++ n) 0)
      by (reflexivity || discriminate || lia).
    rewrite Hd. change (-1 =? -1) with true. cbv iota.
    rewrite IndexFrom_prefix by apply prefix_append. lia. }
  split.
  - apply (countByte_eqb "/"). rewrite countByte_append.
    change ("/Reader::" ++ n) with (String "/" ("Reader::" ++ n)).
    simpl. lia.
  - unfold readerPrefixed, readerName. rewrite Hi. split.
    + apply orb_true_iff. right. apply andb_true_iff. split; [apply Z.ltb_lt; lia |].
      apply bool_decide_eq_true. unfold GoString.index.
      destruct (Z.ltb_spec (Z.of_nat (String.length dir) + 1 - 1) 0); [lia |].
      replace (Z.to_nat (Z.of_nat (String.length dir) + 1 - 1)) with (String.length dir) by lia.
      change ("/Reader::" ++ n) with (String "/" ("Reader::" ++ n)).
      apply get_append_length.
    + replace (Z.to_nat (Z.of_nat (String.length dir) + 1 + 8))
        with (String.length dir + 9)%nat by lia.
      rewrite drop_append_length. reflexivity.
Qed.

(** X17. The server may send the name of a reader behind a path.  A
    request for [dir/Reader::n], where the directory part does not hold the
    prefix itself, is served exactly as the request for [Reader::n]: the
    same result, the same calls and the same packets. *)
Theorem qualified_reader_request (env : Env) (dir n : string) (mc : mysqlConn) :
  GoString.Index dir "Reader::" = -1 ->
  run (handleInFileRequest env (dir ++ "/Reader::" ++ n)) mc
  = run (handleInFileRequest env ("Reader::" ++ n)) mc.
Proof.
  intros Hd. destruct (sourceOf_qualified dir n Hd) as (Hs & Hp & Hn).
  rewrite handleInFileRequest_reader.
  unfold run, handleInFileRequest. unfold mbind at 1. unfold M_bind, getConn.
  cbn [conn fst snd]. rewrite Hs, Hp. cbv zeta. unfold readerName in Hn. rewrite Hn.
  reflexivity.
Qed.

Lemma qualified_reader_request_witness :
  run (handleInFileRequest (sampleEnv allWritesSucceed) ("/var/lib/mysql" ++ "/Reader::" ++ "data"))
    sampleConn
  = run (handleInFileRequest (sampleEnv allWritesSucceed) ("Reader::" ++ "data")) sampleConn.
Proof.
  apply (qualified_reader_request (sampleEnv allWritesSucceed) "/var/lib/mysql" "data" sampleConn).
  reflexivity.
Defined.

Lemma Index_behind_byte (c : ascii) (n : string) :
  GoString.Index (String c ("Reader::" ++ n)) "Reader::" = 1.
Proof.
  unfold GoString.Index. rewrite IndexFrom_step.
  - apply IndexFrom_prefix, prefix_append.
  - rewrite prefix_String. destruct (Ascii.eqb "R" c); [| reflexivity].
    change ("Reader::" ++ n) with (String "R" ("eader::" ++ n)).
    rewrite prefix_String. reflexivity.
Qed.

Lemma sourceOf_behind_byte (c : ascii) (n : string) :
  c <> "/"%char ->
  String.eqb (String c ("Reader::" ++ n)) "Data::Data" = false
  /\ readerPrefixed (String c ("Reader::" ++ n)) = false.
Proof.
  intros Hc. split.
  - apply String.eqb_neq. change ("Reader::" ++ n) with (String "R" ("eader::" ++ n)).
    intros H. discriminate H.
  - unfold readerPrefixed. rewrite Index_behind_byte. simpl.
    apply bool_decide_eq_false. intros H. injection H as ->. now apply Hc.
Qed.

(** X18. The prefix counts only at the start of the name or right behind
    a slash.  With any other byte before it the name is a file path: the
    request takes the way of a file with the whole name, and it calls no
    handler, also when one is registered under the rest of the name. *)
Theorem prefix_behind_other_byte (env : Env) (c : ascii) (n : string) (mc : mysqlConn) :
  c <> "/"%char ->
  let name := String c ("Reader::" ++ n) in
  run (handleInFileRequest env name) mc
  = (resolveFile env (AllowAllFiles (cfg mc)) name (initialPacketSize mc)
       ≫= finishRequest env) (after mc [])
  /\ Forall (λ e, isHandler e = false)
       (trace (snd (run (handleInFileRequest env name) mc))).
Proof.
  intros Hc. cbv zeta. destruct (sourceOf_behind_byte c n Hc) as [Hs Hp].
  split; [now apply handleInFileRequest_file_path |].
  destruct (request_source env (String c ("Reader::" ++ n)) mc Hs)
    as (src & tr0 & -> & _ & _ & _ & Hfl & _).
  destruct (finishRequest_quiet env src (after mc tr0)) as (evs & -> & _ & Hq).
  cbn [trace after]. apply Forall_app. split; [now apply Hfl |].
  eapply Forall_weaken; [| exact Hq]. now intros e [H _].
Qed.

Lemma prefix_behind_other_byte_witness :
  Forall (λ e, isHandler e = false)
    (trace (snd (run (handleInFileRequest (sampleEnv allWritesSucceed)
                        (String quote ("Reader::" ++ "data"))) sampleConn))).
Proof.
  apply (prefix_behind_other_byte (sampleEnv allWritesSucceed) quote "data" sampleConn).
  discriminate.
Defined.

(** ** Quotes around a path *)

Lemma trimRightByte_snoc (s : string) (c : ascii) :
  GoString.trimRightByte (s ++ String c EmptyString) c = GoString.trimRightByte s c.
Proof.
  induction s as [|a s IH].
  - rewrite append_Empty. simpl. now rewrite Ascii.eqb_refl.
  - rewrite append_String. simpl. now rewrite IH.
Qed.

Lemma TrimByte_cons (s : string) (c : ascii) :
  GoString.TrimByte (String c s) c = GoString.TrimByte s c.
Proof.
  unfold GoString.TrimByte. simpl.
  destruct (GoString.trimRightByte s c) as [|b r]; simpl; now rewrite Ascii.eqb_refl.
Qed.

Lemma TrimByte_quoted (s : string) :
  GoString.TrimByte (quoted s) quote = GoString.TrimByte s quote.
Proof.
  unfold quoted. rewrite TrimByte_cons. unfold GoString.TrimByte.
  now rewrite trimRightByte_snoc.
Qed.

Lemma IndexFrom_shift (i k : Z) (s sub : string) :
  0 <= i -> 0 <= i + k ->
  GoString.IndexFrom (i + k) s sub
  = if GoString.IndexFrom i s sub =? -1 then -1 else GoString.IndexFrom i s sub + k.
Proof.
  revert i. induction s as [|a s IH]; intros i Hi Hk;
    rewrite (IndexFrom_eq (i + k)), (IndexFrom_eq i).
  - destruct (String.prefix sub EmptyString); [| reflexivity].
    destruct (Z.eqb_spec i (-1)); [lia | reflexivity].
  - destruct (String.prefix sub (String a s)).
    + destruct (Z.eqb_spec i (-1)); [lia | reflexivity].
    + replace (i + k + 1) with (i + 1 + k) by lia. apply IH; lia.
Qed.

Lemma get_snoc_slash (s : string) (c : ascii) (k : nat) :
  c <> "/"%char ->
  String.get k (s ++ String c EmptyString) = Some "/"%char ->
  String.get k s = Some "/"%char.
Proof.
  intros Hc. revert k. induction s as [|a s IH]; intros k H.
  - rewrite append_Empty in H. destruct k as [|k]; simpl in H.
    + injection H as ->. now contradiction Hc.
    + destruct k; discriminate.
  - rewrite append_String in H. destruct k as [|k]; simpl in *; [exact H | now apply IH].
Qed.

Lemma readerPrefixed_quoted (name : string) :
  readerPrefixed name = false -> readerPrefixed (quoted name) = false.
Proof.
  unfold readerPrefixed, quoted. intros H.
  assert (Hi : GoString.Index (String quote (name ++ String quote EmptyString)) "Reader::"
               = if GoString.Index name "Reader::" =? -1 then -1
                 else GoString.Index name "Reader::" + 1).
  { unfold GoString.Index. rewrite IndexFrom_step by reflexivity.
    rewrite (IndexFrom_foreign quote "Reader::" name EmptyString (0 + 1))
      by (reflexivity || discriminate || lia).
    rewrite (IndexFrom_shift 0 1) by lia.
    destruct (Z.eqb_spec (GoString.IndexFrom 0 name "Reader::") (-1)) as [He|Hne].
    - reflexivity.
    - destruct (Z.eqb_spec (GoString.IndexFrom 0 name "Reader::" + 1) (-1)); [| reflexivity].
      destruct (IndexFrom_ge 0 name "Reader::"); lia. }
  rewrite Hi. clear Hi.
  destruct (IndexFrom_ge 0 name "Reader::") as [Hm|Hge]; fold (GoString.Index name "Reader::") in *.
  - rewrite Hm. reflexivity.
  - destruct (Z.eqb_spec (GoString.Index name "Reader::") (-1)) as [|_]; [lia |].
    apply orb_false_iff in H as [H0 H1]. apply Z.eqb_neq in H0.
    apply orb_false_iff. split; [apply Z.eqb_neq; lia |].
    destruct (Z.ltb_spec 0 (GoString.Index name "Reader::")) as [Hpos|]; [| lia].
    simpl in H1. apply bool_decide_eq_false in H1.
    apply andb_false_iff. right. apply bool_decide_eq_false. intros Hg. apply H1.
    unfold GoString.index in *.
    destruct (Z.ltb_spec (GoString.Index name "Reader::" + 1 - 1) 0); [lia |].
    destruct (Z.ltb_spec (GoString.Index name "Reader::" - 1) 0); [lia |].
    replace (Z.to_nat (GoString.Index name "Reader::" + 1 - 1))
      with (S (Z.to_nat (GoString.Index name "Reader::" - 1))) in Hg by lia.
    simpl in Hg. eapply get_snoc_slash; [| exact Hg]. discriminate.
Qed.

(** X19. Quotes around a file name change nothing.  A name that asks for
    a file is served the same way when it comes between quotes: the same
    authorization, the same file opened under the name without quotes, the
    same packets and the same result. *)
Theorem quoted_file_request (env : Env) (name : string) (mc : mysqlConn) :
  String.eqb name "Data::Data" = false ->
  readerPrefixed name = false ->
  run (handleInFileRequest env (quoted name)) mc = run (handleInFileRequest env name) mc.
Proof.
  intros Hs Hp.
  rewrite (handleInFileRequest_file_path env name mc Hs Hp).
  rewrite (handleInFileRequest_file_path env (quoted name) mc);
    [| reflexivity | now apply readerPrefixed_quoted].
  unfold resolveFile. cbv zeta. rewrite TrimByte_quoted. reflexivity.
Qed.

Lemma quoted_file_request_witness :
  run (handleInFileRequest fileEnv (quoted "/tmp/data.csv")) smallConn
  = run (handleInFileRequest fileEnv "/tmp/data.csv") smallConn.
Proof.
  apply (quoted_file_request fileEnv "/tmp/data.csv" smallConn); reflexivity.
Defined.

(** ** The registries, entry by entry *)

Lemma lookupFile_Register_ne (g : Registers) (p x : string) :
  GoString.TrimByte p quote <> x ->
  lookupFile (RegisterLocalFile p g) x = lookupFile g x.
Proof.
  intros Hne. unfold lookupFile, RegisterLocalFile; simpl.
  rewrite lookup_insert_ne by exact Hne.
  destruct (fileRegister g); [reflexivity | now rewrite lookup_empty].
Qed.

Lemma lookupFile_Deregister_ne (g : Registers) (p x : string) :
  GoString.TrimByte p quote <> x ->
  lookupFile (DeregisterLocalFile p g) x = lookupFile g x.
Proof.
  intros Hne. unfold lookupFile, DeregisterLocalFile; simpl.
  destruct (fileRegister g); simpl; [| reflexivity].
  now rewrite lookup_delete_ne.
Qed.

Lemma lookupReader_Register_ne (g : Registers) (n x : string) (h : handler) :
  n <> x -> lookupReader (RegisterReaderHandler n h g) x = lookupReader g x.
Proof.
  intros Hne. unfold lookupReader, RegisterReaderHandler; simpl.
  rewrite lookup_insert_ne by exact Hne.
  destruct (readerRegister g); [reflexivity | now rewrite lookup_empty].
Qed.

Lemma lookupReader_Deregister_ne (g : Registers) (n x : string) :
  n <> x -> lookupReader (DeregisterReaderHandler n g) x = lookupReader g x.
Proof.
  intros Hne. unfold lookupReader, DeregisterReaderHandler; simpl.
  destruct (readerRegister g); simpl; [| reflexivity].
  now rewrite lookup_delete_ne.
Qed.

(** X20. The registries change one entry at a time.  Registering or
    deregistering a file path leaves the authorization of every path with
    another name (quotes apart) as it was, and registering or deregistering
    a reader leaves the lookup of every other name as it was; the registry
    of files and the registry of readers do not touch each other. *)
Theorem registries_entrywise
    (g : Registers) (p q n m : string) (allow : bool) (h : handler) :
  GoString.TrimByte p quote <> GoString.TrimByte q quote ->
  n <> m ->
  isFileAllowed (RegisterLocalFile p g) allow q = isFileAllowed g allow q
  /\ isFileAllowed (DeregisterLocalFile p g) allow q = isFileAllowed g allow q
  /\ lookupReader (RegisterReaderHandler n h g) m = lookupReader g m
  /\ lookupReader (DeregisterReaderHandler n g) m = lookupReader g m
  /\ (forall x, lookupReader (RegisterLocalFile p g) x = lookupReader g x
                /\ lookupReader (DeregisterLocalFile p g) x = lookupReader g x)
  /\ (forall x, isFileAllowed (RegisterReaderHandler n h g) allow x = isFileAllowed g allow x
                /\ isFileAllowed (DeregisterReaderHandler n g) allow x = isFileAllowed g allow x).
Proof.
  intros Hpq Hnm. unfold isFileAllowed.
  rewrite lookupFile_Register_ne, lookupFile_Deregister_ne by exact Hpq.
  rewrite lookupReader_Register_ne, lookupReader_Deregister_ne by exact Hnm.
  repeat split.
Qed.

Lemma registries_entrywise_witness :
  isFileAllowed (RegisterLocalFile "/tmp/other.csv" (registers fileEnv)) false "/tmp/data.csv"
  = isFileAllowed (registers fileEnv) false "/tmp/data.csv".
Proof.
  apply (registries_entrywise (registers fileEnv) "/tmp/other.csv" "/tmp/data.csv"
           "data" "broken" false (fun _ => None)).
  - vm_compute. discriminate.
  - discriminate.
Defined.

(** X21. Deregistering never authorizes and registering never forbids:
    a path that is allowed after a deregistration was allowed before, and a
    path that was allowed stays so through any registration.  Registering a
    path a second time changes nothing. *)
Theorem registration_monotone (g : Registers) (p q : string) (allow : bool) :
  (isFileAllowed (DeregisterLocalFile p g) allow q = true -> isFileAllowed g allow q = true)
  /\ (isFileAllowed g allow q = true -> isFileAllowed (RegisterLocalFile p g) allow q = true)
  /\ RegisterLocalFile p (RegisterLocalFile p g) = RegisterLocalFile p g.
Proof.
  unfold isFileAllowed.
  destruct (string_dec (GoString.TrimByte p quote) (GoString.TrimByte q quote)) as [E|Hne].
  - rewrite <- E, lookupFile_Deregister, lookupFile_Register.
    split; [destruct allow; [reflexivity | discriminate] |].
    split; [intros _; apply orb_true_r |].
    unfold RegisterLocalFile; simpl. now rewrite insert_insert_eq.
  - rewrite lookupFile_Deregister_ne, lookupFile_Register_ne by exact Hne.
    split; [auto |]. split; [auto |].
    unfold RegisterLocalFile; simpl. now rewrite insert_insert_eq.
Qed.

(** ** The rows of a load, byte by byte *)

(** X22. No byte of a load is lost, repeated or reordered.  After a call
    of [loadDataWrite] that returns no error, the payloads of the packets
    written so far followed by the rows still in the buffer are what they
    were before the call followed by the new row and its newline; a call
    without columns ends the load and leaves no row in the buffer. *)
Theorem loadDataWrite_conserves
    (FormatFloat : float -> ascii -> Z -> Z -> string) (env : Env)
    (args : list Value) (s s' : State) (body : string) :
  loadData (conn s) = header ++ body ->
  loadDataWrite FormatFloat env args s = Some (None, s') ->
  exists added,
    match args with
    | [] => added = EmptyString /\ pending s' = EmptyString
    | _ => exists row, encodedColumns FormatFloat (Loc (cfg (conn s))) 0 args = Some row
                       /\ added = row ++ String LF EmptyString
    end
    /\ payloads (trace s') ++ pending s' = payloads (trace s) ++ pending s ++ added.
Proof.
  intros Hb H. unfold pending. rewrite Hb, drop_header.
  destruct args as [|a args'].
  - exists EmptyString. unfold loadDataWrite in H. injection H as H.
    pose proof (loadDataTerminate_run env s) as (Ht & _ & Hr). cbv zeta in Ht, Hr.
    pose proof (loadDataTerminate_buffer_of env s) as Hbuf.
    rewrite H in Ht, Hr, Hbuf. simpl in Ht, Hr, Hbuf. unfold terminateTraffic in Ht.
    destruct (writePacketResult env (writes s)) as [e|]; [discriminate |].
    destruct (writePacketResult env (S (writes s))) as [e|]; [discriminate |].
    rewrite Hbuf, Ht, payloads_app, Hb. simpl. rewrite !append_nil_r. repeat split.
  - assert (Hne : a :: args' <> []) by discriminate.
    destruct (loadDataWrite_step _ _ _ _ _ _ Hne H) as (row & Hrow & Hcase & _).
    cbv zeta in Hcase.
    exists (row ++ String LF EmptyString). split; [eauto |].
    rewrite Hb in Hcase.
    destruct (Z.of_nat (String.length ((header ++ body) ++ row ++ String LF EmptyString))
              >? maxLoadDataSize (conn s)).
    + destruct Hcase as (Ht & Hr & Hl).
      destruct (writePacketResult env (writes s)) as [e|]; [discriminate |].
      rewrite Ht, Hl, payloads_app. simpl.
      rewrite !append_nil_r, !append_Empty. reflexivity.
    + destruct Hcase as (-> & _ & ->).
      now rewrite append_assoc, drop_header.
Qed.

Lemma loadDataWrite_conserves_witness :
  exists added : string,
    payloads [] ++ GoString.drop 4 (header ++ "42" ++ String LF EmptyString)
    = payloads [] ++ pending (snd (run loadDataStart sampleConn)) ++ added.
Proof.
  destruct (loadDataWrite_conserves noFloat (sampleEnv allWritesSucceed) [VInt64 42]
              (snd (run loadDataStart sampleConn))
              {| conn := {| cfg := cfg sampleConn; maxWriteSize := 16777215;
                            inLoadData := true; maxLoadDataSize := 16384;
                            loadData := header ++ "42" ++ String LF EmptyString |};
                 trace := []; writes := 0 |}
              EmptyString eq_refl eq_refl)
    as (added & _ & H).
  exists added. exact H.
Defined.

(** ** The tests of the driver *)

(** X23. [Test_escapedText] passes: every entry of its table gives the
    wanted result. *)
Theorem Test_escapedText_passes : Test_escapedText = true.
Proof. vm_compute. reflexivity. Qed.

(** X24. [Test_encodedLoadData] passes on a connection whose configured
    location is UTC, given that the formatter prints the float of the table
    as the table wants it. *)
Theorem Test_encodedLoadData_passes
    (FormatFloat : float -> ascii -> Z -> Z -> string) (mc : mysqlConn) :
  Loc (cfg mc) = time.UTC ->
  FormatFloat 0x1.51d70a3d70a3dp+5%float "g"%char (-1) 64 = "42.23" ->
  Test_encodedLoadData FormatFloat mc = true.
Proof.
  intros HL HF. unfold Test_encodedLoadData. rewrite HL.
  apply forallb_forall. intros [x want] Hin. apply bool_decide_eq_true.
  unfold encodedLoadDataTests in Hin. cbn [In] in Hin. cbn [fst snd].
  repeat (destruct Hin as [Hin|Hin];
          [injection Hin as <- <-;
           first [vm_compute; reflexivity | cbn [encodedLoadData]; rewrite HF; reflexivity] |]).
  contradiction.
Qed.

Lemma Test_encodedLoadData_passes_witness : Test_encodedLoadData testFloat sampleConn = true.
Proof.
  apply (Test_encodedLoadData_passes testFloat sampleConn); reflexivity.
Defined.

(** ** A regular file *)

Lemma length_drop_le (n : nat) (s : string) :
  (String.length (GoString.drop n s) <= String.length s)%nat.
Proof.
  revert s; induction n as [|n IH]; intros [|c s]; simpl; try lia.
  specialize (IH s). lia.
Qed.

Lemma piecesOf_all (fuel capacity : nat) (content : string) :
  (0 < capacity)%nat -> (String.length content <= fuel)%nat ->
  allBytes (upToError (piecesOf fuel capacity content)) = content.
Proof.
  intros Hcap. revert content. induction fuel as [|fuel IH]; intros content Hlen.
  - destruct content; [reflexivity | simpl in Hlen; lia].
  - destruct content as [|c rest]; [reflexivity |].
    cbn [piecesOf upToError readErr allBytes readBytes].
    rewrite IH.
    + apply take_drop.
    + destruct capacity as [|k]; [lia |]. cbn [GoString.drop].
      pose proof (length_drop_le k rest). simpl in Hlen. lia.
Qed.

(** X25. A regular file arrives whole.  For a file whose reads give its
    content piece by piece, each as large as the buffer allows, and whose
    size is the length of the content, the payloads of the data packets of
    an authorized request are the content, byte for byte, whatever the
    packet size; taking the size of a small file as the packet size loses
    nothing. *)
Theorem file_content_transferred (env : Env) (name content : string) (mc : mysqlConn) :
  String.eqb name "Data::Data" = false ->
  readerPrefixed name = false ->
  isFileAllowed (registers env) (AllowAllFiles (cfg mc)) name = true ->
  osOpen env (GoString.TrimByte name quote) = inr (fileOf content) ->
  (forall k, writePacketResult env k = None) ->
  0 < maxWriteSize mc ->
  payloads (trace (snd (run (handleInFileRequest env name) mc))) = content.
Proof.
  intros Hs Hp Ha Ho Hw Hmw.
  destruct (request_file_events env name mc (fileOf content)
              (Z.of_nat (String.length content)) Hs Hp Ha Ho eq_refl)
    as (evs & ending & -> & _ & Hend & Hcont).
  rewrite (payloads_file_events _ evs ending Hend).
  assert (Hi : 0 < initialPacketSize mc)
    by (unfold initialPacketSize; destruct (Z.ltb_spec (maxWriteSize mc) (16 * 1024)); lia).
  destruct (Z.ltb_spec 0 (Z.min (Z.of_nat (String.length content)) (initialPacketSize mc)))
    as [Hpos|Hneg].
  - rewrite (Hcont Hw). cbn [fileReads fileOf]. apply piecesOf_all; lia.
  - subst evs. destruct content; [reflexivity | simpl in Hneg; lia].
Qed.

Lemma file_content_transferred_witness :
  payloads (trace (snd (run (handleInFileRequest fileEnv (quoted "/tmp/data.csv")) smallConn)))
  = "a,b,c".
Proof.
  apply (file_content_transferred fileEnv (quoted "/tmp/data.csv") "a,b,c" smallConn);
    try reflexivity.
Defined.
